(** * Angular detectors provider and export commit helper

    A shallow embedding of two Go files:

    - the [angulardetectorsprovider] package's [Dynamic] provider
      ([patternsToDetectors], [fetch], [updateDetectors],
      [setDetectorsFromCache], [Run], [ProvideDetectors]);
    - the [export] package's [commitHelper.add].

    Go values are modelled as follows.  An [error] interface value is an
    [option error] ([None] is Go's [nil]); a slice is an [option (list A)]
    ([None] is the nil slice); [time.Time] is a number of nanoseconds on the
    integer line and [time.Duration] an [int64] number of nanoseconds;
    collaborators that live outside the two files (rule compiler, durable
    store, HTTP transport, file system, git work tree) are interfaces, given
    as type classes. *)

From Stdlib Require Import ZArith Ascii String DecimalString Lia.
From stdpp Require Import base option list gmap.

Local Open Scope Z_scope.

(* ===================================================================== *)
(** ** Go's [errors] and [fmt.Errorf] *)
(* ===================================================================== *)

Module errors.

(** The dynamic shapes an error value takes in the two files.
    [errUnknownPatternType] is the package-level sentinel; Go compares it
    by identity, which is why it has a constructor of its own.
    [wrapError prefix err] is [fmt.Errorf(prefix + "%w", err)] and
    [joinError] is what [errors.Join] allocates. *)
#[warnings="-register-all"] Inductive error : Type :=
| errUnknownPatternType
| errorString (s : string)
| wrapError (prefix : string) (err : error)
| joinError (errs : list error).

(** [errors.Is(err, errUnknownPatternType)]: follow [Unwrap() error]
    through wrappers and [Unwrap() []error] through joins. *)
Fixpoint Is_errUnknownPatternType (err : error) : bool :=
  match err with
  | errUnknownPatternType => true
  | errorString _ => false
  | wrapError _ e => Is_errUnknownPatternType e
  | joinError es => existsb Is_errUnknownPatternType es
  end.

Fixpoint non_nil (errs : list (option error)) : list error :=
  match errs with
  | [] => []
  | None :: rest => non_nil rest
  | Some e :: rest => e :: non_nil rest
  end.

(** [errors.Join(errs...)]: nil when every argument is nil, otherwise a
    join of the non-nil arguments, in order. *)
Definition Join (errs : list (option error)) : option error :=
  match non_nil errs with
  | [] => None
  | es => Some (joinError es)
  end.

Definition newline : string := String (ascii_of_nat 10) EmptyString.

(** Modelled from the spec: the sentinel for a record of an unrecognized
    kind is declared next to the rule compiler, outside the files at hand;
    this is its text. *)
Definition errUnknownPatternType_text : string := "unknown pattern type".

(** The [Error()] method. *)
Fixpoint Error (e : error) : string :=
  match e with
  | errUnknownPatternType => errUnknownPatternType_text
  | errorString s => s
  | wrapError prefix e' => (prefix ++ Error e')%string
  | joinError es => String.concat newline (map Error es)
  end.

(** [reaches e t]: [t] is found in [e]'s tree of [Unwrap]s. *)
Inductive reaches : error -> error -> Prop :=
| reaches_refl e : reaches e e
| reaches_wrap prefix e t : reaches e t -> reaches (wrapError prefix e) t
| reaches_join es e t : In e es -> reaches e t -> reaches (joinError es) t.

End errors.

Import errors.

Module fmt.
(** [fmt.Errorf(prefix + "%w", err)]. *)
Definition Errorf_w (prefix : string) (err : error) : error :=
  wrapError prefix err.
(** [fmt.Errorf(msg)] with no wrapping verb. *)
Definition Errorf (msg : string) : error := errorString msg.
End fmt.

(** A Go slice: [None] is the nil slice. *)
Definition slice (A : Type) : Type := option (list A).

Definition len {A} (s : slice A) : nat :=
match s with None => O | Some l => length l end.

Definition elems {A} (s : slice A) : list A :=
match s with None => [] | Some l => l end.

(* ===================================================================== *)
(** ** Collaborators of the provider *)
(* ===================================================================== *)

(** The rule compiler: [GCOMPattern] and its method [angularDetector()],
  which returns Go's pair of an [AngularDetector] interface value
  (possibly nil) and an error (possibly nil). *)
Class Compiler := {
GCOMPattern : Type;
Detector : Type;
angularDetector : GCOMPattern -> option Detector * option error;
}.

Section Conversion.
Context `{Compiler}.

Definition GCOMPatterns : Type := list GCOMPattern.
Definition AngularDetector : Type := option Detector.

(** The [for _, pattern := range patterns] loop, with the two variables
    it updates. *)
Fixpoint patternsToDetectors_loop (patterns : GCOMPatterns)
    (finalErr : option error) (detectors : list AngularDetector)
    : option error * list AngularDetector :=
  match patterns with
  | [] => (finalErr, detectors)
  | pattern :: rest =>
      let '(ad, err) := angularDetector pattern in
      match err with
      | Some e =>
          if Is_errUnknownPatternType e
          then patternsToDetectors_loop rest finalErr detectors
          else patternsToDetectors_loop rest
                 (Join [finalErr; Some e]) (detectors ++ [ad])
      | None => patternsToDetectors_loop rest finalErr (detectors ++ [ad])
      end
  end.

Definition patternsToDetectors (patterns : GCOMPatterns)
    : slice AngularDetector * option error :=
  let '(finalErr, detectors) := patternsToDetectors_loop patterns None [] in
  match finalErr with
  | Some e => (None, Some e)
  | None => (Some detectors, None)
  end.

(** *** Vocabulary for the statements *)

(** The record is skipped: its error is the unknown-type sentinel. *)
Definition skipped (p : GCOMPattern) : bool :=
  match snd (angularDetector p) with
  | Some e => Is_errUnknownPatternType e
  | None => false
  end.

(** The record's error, when it is one that fails the batch. *)
Definition fatal (p : GCOMPattern) : option error :=
  match snd (angularDetector p) with
  | Some e => if Is_errUnknownPatternType e then None else Some e
  | None => None
  end.

Definition fatalErrors (patterns : GCOMPatterns) : list error :=
  non_nil (map fatal patterns).

(** [finalErr = errors.Join(finalErr, err)], once per failure. *)
Definition join_all (errs : list error) (finalErr : option error)
    : option error :=
  fold_left (fun acc e => Join [acc; Some e]) errs finalErr.

Definition compiles (p : GCOMPattern) : Prop :=
  snd (angularDetector p) = None.

Definition kept (patterns : GCOMPatterns) : list AngularDetector :=
  map (fun p => fst (angularDetector p))
      (List.filter (fun p => negb (skipped p)) patterns).

End Conversion.

(* ===================================================================== *)
(** ** Go's [time] *)
(* ===================================================================== *)

Module time.

(** An instant, in nanoseconds on the integer line.  Go's [Time] spans far
    more than a [Duration] does, so instants are not bounded here. *)
Definition Time : Type := Z.

(** [time.Duration]: an [int64] count of nanoseconds. *)
Definition Duration : Type := Z.

Definition minDuration : Duration := - 2 ^ 63.
Definition maxDuration : Duration := 2 ^ 63 - 1.

Definition Nanosecond : Duration := 1.
Definition Microsecond : Duration := 1000 * Nanosecond.
Definition Millisecond : Duration := 1000 * Microsecond.
Definition Second : Duration := 1000 * Millisecond.
Definition Minute : Duration := 60 * Second.
Definition Hour : Duration := 60 * Minute.

(** [t.Add(d)]. *)
Definition Add (t : Time) (d : Duration) : Time := t + d.

(** [t.Sub(u)]: the difference, saturated to the range of [Duration]. *)
Definition Sub (t u : Time) : Duration :=
  if t - u <? minDuration then minDuration
  else if maxDuration <? t - u then maxDuration
  else t - u.

(** [time.Until(t)], with the reading of the clock made explicit. *)
Definition Until (now : Time) (t : Time) : Duration := Sub t now.

(** Instants count from the Unix epoch: [t.Unix()] is the whole seconds. *)
Definition Unix (t : Time) : Z := t / Second.

(** The zero [Time], January 1 of year 1. *)
Definition zeroTime : Time := -62135596800 * Second.

(** The channel of a [Ticker].  Before Go 1.23 it is buffered with room
    for one tick, and a tick sent before a [Reset] stays in it; from Go
    1.23 on no tick prepared before a [Reset] is received after it. *)
Inductive TimerChannel : Type :=
| Buffered
| Synchronous.

(** A [Ticker]: its period, the instant its timer expires next, and
    whether its channel [C] holds a tick. *)
Record Ticker : Type := mkTicker {
  period : Duration;
  next_fire : Time;
  pending : bool;
}.

(** [time.NewTicker(d)] at instant [now], for a positive [d]. *)
Definition NewTicker (now : Time) (d : Duration) : Ticker :=
  mkTicker d (now + d) false.

(** The ticker at instant [t]: once its timer has expired, a tick has been
    sent (and dropped when the channel was full) and the timer is set to
    the first multiple of the period after [t]. *)
Definition ticker_at (t : Time) (tk : Ticker) : Ticker :=
  if next_fire tk <=? t
  then mkTicker (period tk)
         (next_fire tk + period tk * ((t - next_fire tk) / period tk + 1))
         true
  else tk.

(** [ticker.Reset(d)] at instant [t], for a positive [d]. *)
Definition Reset (chan : TimerChannel) (t : Time) (d : Duration)
    (tk : Ticker) : Ticker :=
  mkTicker d (t + d)
    match chan with
    | Buffered => pending (ticker_at t tk)
    | Synchronous => false
    end.

(** [<-ticker.C] at instant [t]: the ticker once the tick is taken, or
    [None] when there is no tick to take. *)
Definition receive (t : Time) (tk : Ticker) : option Ticker :=
  let tk := ticker_at t tk in
  if pending tk then Some (mkTicker (period tk) (next_fire tk) false)
  else None.

End time.

(* ===================================================================== *)
(** ** [sync.RWMutex] *)
(* ===================================================================== *)

Record RWMutex : Type := mkRWMutex {
  writer : bool;
  readers : nat;
}.

Definition freshMutex : RWMutex := mkRWMutex false O.

(** [Lock] and [RLock] return [None] when the caller has to wait for a
    holder of the lock.  That [RLock] also waits behind a writer that is
    itself waiting in [Lock] is not recorded in the mutex; where it
    matters, for progress, it is accounted for by [cautious_step]. *)
Definition Lock (m : RWMutex) : option RWMutex :=
  if writer m then None
  else match readers m with
       | O => Some (mkRWMutex true O)
       | S _ => None
       end.

Definition Unlock (m : RWMutex) : RWMutex := mkRWMutex false (readers m).

Definition RLock (m : RWMutex) : option RWMutex :=
  if writer m then None else Some (mkRWMutex false (S (readers m))).

Definition RUnlock (m : RWMutex) : RWMutex :=
  mkRWMutex (writer m) (Nat.pred (readers m)).

(* ===================================================================== *)
(** ** The durable store and the transport *)
(* ===================================================================== *)

(** [angularpatternsstore.Service], in state-passing style: [Store] is the
    state the service keeps behind its reference.  The two reads leave it
    as it is. *)
Class Service `{Compiler} := {
  Store : Type;
  store_Get : Store -> string * bool * option error;
  store_Set : Store -> GCOMPatterns -> Store * option error;
  store_GetLastUpdated : Store -> time.Time * option error;
}.

(** What [fetch] and the restore use from [net/url], [net/http] and
    [encoding/json].  A result is [inl] of the value or [inr] of the error. *)
Class Transport `{Compiler} := {
  Request : Type;
  Response : Type;
  gcomAngularPatternsPath : string;
  url_JoinPath : string -> string -> string + error;
  http_NewRequestWithContext : string -> Request + error;
  json_Decode : Response -> GCOMPatterns + error;
  json_Unmarshal : string -> GCOMPatterns + error;
}.

(* ===================================================================== *)
(** ** The provider *)
(* ===================================================================== *)

Section Provider.
Context `{Service} `{!Transport}.

(** How the remote end answers [d.httpClient.Do(req)] at the time of one
    call. *)
Definition Network : Type := Request -> Response + error.

(** [backgroundJobInterval]'s initial value. *)
Definition backgroundJobInterval : time.Duration := time.Hour * 1.

(** The [Dynamic] struct.  [features] holds whether the feature flag is
    enabled; [store] holds the state of the store the struct refers to.
    The logger has no part in any result and is left out; the HTTP client
    is the [Network] argument of [fetch]. *)
Record Dynamic : Type := mkDynamic {
  features : bool;
  baseURL : string;
  store : Store;
  detectors : slice AngularDetector;
  mux : RWMutex;
}.

Definition set_store (s : Store) (d : Dynamic) : Dynamic :=
  mkDynamic (features d) (baseURL d) s (detectors d) (mux d).

Definition set_detectors (ds : slice AngularDetector) (d : Dynamic) : Dynamic :=
  mkDynamic (features d) (baseURL d) (store d) ds (mux d).

Definition set_mux (m : RWMutex) (d : Dynamic) : Dynamic :=
  mkDynamic (features d) (baseURL d) (store d) (detectors d) m.

(** [defer d.mux.Unlock()], run on the way out. *)
Definition unlocked (d : Dynamic) : Dynamic := set_mux (Unlock (mux d)) d.

Definition fetch (net : Network) (d : Dynamic) : GCOMPatterns + error :=
  match url_JoinPath (baseURL d) gcomAngularPatternsPath with
  | inr err => inr (fmt.Errorf_w "url joinpath: " err)
  | inl reqURL =>
      match http_NewRequestWithContext reqURL with
      | inr err => inr (fmt.Errorf_w "new request with context: " err)
      | inl req =>
          match net req with
          | inr err => inr (fmt.Errorf_w "http do: " err)
          | inl resp =>
              match json_Decode resp with
              | inr err => inr (fmt.Errorf_w "json decode: " err)
              | inl out => inl out
              end
          end
      end
  end.

(** One refresh cycle.  [None]: the call waits for the lock. *)
Definition updateDetectors (net : Network) (d : Dynamic)
    : option (Dynamic * option error) :=
  match Lock (mux d) with
  | None => None
  | Some m =>
      let d := set_mux m d in
      match fetch net d with
      | inr err => Some (unlocked d, Some (fmt.Errorf_w "fetch: " err))
      | inl patterns =>
          match patternsToDetectors patterns with
          | (_, Some err) =>
              Some (unlocked d,
                    Some (fmt.Errorf_w "patterns convert to detectors: " err))
          | (newDetectors, None) =>
              let '(s, err) := store_Set (store d) patterns in
              let d := set_store s d in
              match err with
              | Some err =>
                  Some (unlocked d, Some (fmt.Errorf_w "store set: " err))
              | None =>
                  let d := set_detectors newDetectors d in
                  Some (unlocked d, None)
              end
          end
      end
  end.

(** The restore at start-up.  [None]: the call waits for the lock. *)
Definition setDetectorsFromCache (d : Dynamic)
    : option (Dynamic * option error) :=
  match Lock (mux d) with
  | None => None
  | Some m =>
      let d := set_mux m d in
      let '(rawCached, ok, err) := store_Get (store d) in
      if negb ok then Some (unlocked d, None)
      else
        match err with
        | Some err =>
            Some (unlocked d, Some (fmt.Errorf_w "get cached value: " err))
        | None =>
            match json_Unmarshal rawCached with
            | inr err =>
                Some (unlocked d, Some (fmt.Errorf_w "json unmarshal: " err))
            | inl cachedPatterns =>
                match patternsToDetectors cachedPatterns with
                | (_, Some err) =>
                    Some (unlocked d,
                          Some (fmt.Errorf_w "convert to detectors: " err))
                | (cachedDetectors, None) =>
                    Some (unlocked (set_detectors cachedDetectors d), None)
                end
            end
        end
  end.

Definition IsDisabled (d : Dynamic) : bool := negb (features d).

(** [ProvideDynamic]: the struct literal, then the restore unless the
    service is disabled.  The restore's error is logged and dropped. *)
Definition ProvideDynamic (grafanaComURL : string) (s : Store)
    (enabled : bool) : Dynamic :=
  let d := mkDynamic enabled grafanaComURL s None freshMutex in
  if IsDisabled d then d
  else match setDetectorsFromCache d with
       | Some (d', _) => d'
       | None => d
       end.

(** [ProvideDetectors].  [None]: the call waits for the lock. *)
Definition ProvideDetectors (d : Dynamic)
    : option (Dynamic * slice AngularDetector) :=
  match RLock (mux d) with
  | None => None
  | Some m =>
      let d := set_mux m d in
      let r := detectors d in
      Some (set_mux (RUnlock (mux d)) d, r)
  end.

End Provider.

(* ===================================================================== *)
(** ** The background service *)
(* ===================================================================== *)

Section Scheduler.
Context `{Service} `{!Transport}.

(** The [ctx] handed to [Run]: when it is cancelled, the instant from which
    [ctx.Done()] is readable and the value [ctx.Err()] has from then on. *)
Record context_Context : Type := mkContext {
  cancelled : option (time.Time * error);
}.

(** What the [select] of the loop receives, one event per iteration.
    [Tick t net finished]: [tick] delivers at instant [t]; while the cycle
    runs the remote end behaves as [net]; the cycle is over, and the ticker
    is reset, at instant [finished].  [Done t]: [ctx.Done()] is received at
    instant [t]. *)
Inductive event : Type :=
| Tick (t : time.Time) (net : Network) (finished : time.Time)
| Done (t : time.Time).

(** The variables of the loop.  [from_first] tells that [tick] is still
    the buffered [firstTick], which holds a value from the start; after
    the first cycle [tick] is the channel of [ticker].  [logged] collects
    the errors passed to [d.log.Error]. *)
Record loop_state : Type := mkLoop {
  provider : Dynamic;
  clock : time.Time;
  from_first : bool;
  ticker : time.Ticker;
  cycles : nat;
  logged : list error;
}.

Inductive outcome : Type :=
| Running (st : loop_state)                       (* waiting in [select] *)
| Returned (d : Dynamic) (err : option error)     (* [Run] has returned *)
| Waiting                                         (* a cycle waits for the lock *)
| Panicked                                        (* [time.NewTicker] refused the period *)
| NotABehaviour.                                  (* the events do not fit the run *)

Definition log_Error (err : option error) (l : list error) : list error :=
  match err with Some e => l ++ [e] | None => l end.

(** [<-tick] at instant [t]: the ticker afterwards, or [None] when [tick]
    holds no value.  While [tick] is [firstTick] the ticker runs on
    unread. *)
Definition receive_tick (st : loop_state) (t : time.Time)
    : option time.Ticker :=
  if from_first st then Some (time.ticker_at t (ticker st))
  else time.receive t (ticker st).

(** The [for { select { ... } }] loop, along a list of events. *)
Fixpoint Run_loop (chan : time.TimerChannel) (ctx : context_Context)
    (interval : time.Duration) (st : loop_state) (events : list event)
    : outcome :=
  match events with
  | [] => Running st
  | Tick t net finished :: rest =>
      if (clock st <=? t) && (t <=? finished) then
        match receive_tick st t with
        | None => NotABehaviour
        | Some tk =>
            match updateDetectors net (provider st) with
            | None => Waiting
            | Some (d, err) =>
                Run_loop chan ctx interval
                  (mkLoop d finished false
                          (time.Reset chan finished interval tk)
                          (S (cycles st)) (log_Error err (logged st)))
                  rest
            end
        end
      else NotABehaviour
  | Done t :: _ =>
      match cancelled ctx with
      | Some (c, reason) =>
          if (c <=? t) && (clock st <=? t)
          then Returned (provider st) (Some reason)
          else NotABehaviour
      | None => NotABehaviour
      end
  end.

(** [Run], started at instant [now] with the period [interval] that
    [backgroundJobInterval] holds, on a runtime whose ticker channels are
    of kind [chan].  The statements before the loop take no time on this
    clock: [time.Until], [time.NewTicker] and [ticker.Reset] all read
    [now]. *)
Definition Run (chan : time.TimerChannel) (ctx : context_Context)
    (interval : time.Duration) (now : time.Time) (d : Dynamic)
    (events : list event) : outcome :=
  let '(lastUpdate, err) := store_GetLastUpdated (store d) in
  match err with
  | Some err => Returned d (Some (fmt.Errorf_w "get last updated: " err))
  | None =>
      let nextRunUntil := time.Until now (time.Add lastUpdate interval) in
      if interval <=? 0 then Panicked
      else
        let ticker := time.NewTicker now interval in
        if nextRunUntil <=? 0
        then Run_loop chan ctx interval (mkLoop d now true ticker O []) events
        else Run_loop chan ctx interval
               (mkLoop d now false (time.Reset chan now nextRunUntil ticker)
                       O [])
               events
  end.



(** Firings one period apart, each cycle taking no time, with the remote
    end behaving as the elements of [nets] in turn. *)
Fixpoint regular_firings (interval : time.Duration) (t : time.Time)
    (nets : list Network) : list event :=
  match nets with
  | [] => []
  | net :: rest =>
      Tick t net t :: regular_firings interval (time.Add t interval) rest
  end.

End Scheduler.

(* ===================================================================== *)
(** ** The export commit helper *)
(* ===================================================================== *)

Module commit_helper.

Record userInfo : Type := mkUserInfo {
  ID : Z;
  Login : string;
  Email : string;
  Name : string;
  Password : string;
  Salt : string;
  Role : string;
  Theme : string;
  Created : time.Time;
  Updated : time.Time;
  IsDisabled : bool;
  IsServiceAccount : bool;
  LastSeenAt : time.Time;
}.

(** [object.Signature]. *)
Record Signature : Type := mkSignature {
  sig_Name : string;
  sig_Email : string;
  sig_When : time.Time;
}.

Record commitBody : Type := mkCommitBody {
  fpath : string;
  body : list Byte.byte;
}.

Record commitOptions : Type := mkCommitOptions {
  opts_body : list commitBody;
  when : time.Time;
  userID : Z;
  comment : string;
}.

(** The fields of [commitHelper] that are data; [ctx], [repo] and [work]
    are handles on the world below. *)
Record commitHelper : Type := mkCommitHelper {
  orgDir : string;
  workDir : string;
  orgID : Z;
  users : gmap Z userInfo;
}.

Fixpoint firstRealStringX (vals : list string) : string :=
  match vals with
  | [] => "?"%string
  | v :: rest => if String.eqb v "" then firstRealStringX rest else v
  end.

Definition getAuthor (u : userInfo) : Signature :=
  mkSignature
    (firstRealStringX [Name u; Login u; Email u; "?"%string])
    (firstRealStringX [Email u; Login u; Name u; "?"%string])
    time.zeroTime.

(** The loop of [initOrg] that fills [lookup]: a row replaces an earlier
    row with the same [ID]. *)
Definition lookup_of (rows : list userInfo) : gmap Z userInfo :=
  fold_left (fun lookup row => <[ID row := row]> lookup) rows ∅.

(** [initOrg].  [sql] is the database seen through the session: for an
    org, the rows that [sess.Find] puts into [rows], or the error of the
    session. *)
Definition initOrg (sql : Z -> list userInfo + error) (org : Z)
    (ch : commitHelper) : commitHelper * option error :=
  match sql org with
  | inr err => (ch, Some err)
  | inl rows =>
      (mkCommitHelper (orgDir ch) (workDir ch) org (lookup_of rows), None)
  end.

(** The calls [add] makes on the file system and on the work tree. *)
Inductive call : Type :=
| MkdirAll (dir : string)
| WriteFile (name : string) (data : list Byte.byte)
| WorkAdd (sub : string)
| WorkStatus
| WorkCommit (msg : string) (author : Signature).

(** The file system and the git work tree: how the world answers a call,
    with the error it reports, if any.  [path_Dir] is [path.Dir]. *)
Class Worktree := {
  World : Type;
  perform : World -> call -> World * option error;
  path_Dir : string -> string;
}.

Section Add.
Context `{Worktree}.

(** The world, and the calls made on it so far. *)
Definition effects : Type := World * list call.

Definition do_call (fx : effects) (c : call) : effects * option error :=
  let '(w, err) := perform (fst fx) c in ((w, snd fx ++ [c]), err).

Inductive add_result : Type :=
| Returns (err : option error)
| Panics.                        (* slice bounds out of range *)

Definition decimal (n : nat) : string :=
  NilEmpty.string_of_uint (Nat.to_uint n).

(** [b.fpath[len(ch.workDir)+1:]]; [None] when the bound is out of range. *)
Definition slice_from (s : string) (n : nat) : option string :=
  if (String.length s <? n)%nat then None
  else Some (substring n (String.length s - n) s).

(** The body of the loop for one entry: [inl] to go on with the next
    entry, [inr] to leave [add].  The status printed on standard output
    when [work.Add] fails is not kept. *)
Definition add_entry (ch : commitHelper) (b : commitBody) (fx : effects)
    : effects * (unit + add_result) :=
  if negb (String.prefix (orgDir ch) (fpath b)) then
    (fx, inr (Returns (Some
       (fmt.Errorf "invalid path, must be within the root folder"))))
  else
    let '(fx, err) := do_call fx (MkdirAll (path_Dir (fpath b))) in
    match err with
    | Some err => (fx, inr (Returns (Some err)))
    | None =>
        let '(fx, err) := do_call fx (WriteFile (fpath b) (body b)) in
        match err with
        | Some err => (fx, inr (Returns (Some err)))
        | None =>
            match slice_from (fpath b) (String.length (workDir ch) + 1) with
            | None => (fx, inr Panics)
            | Some sub =>
                let '(fx, err) := do_call fx (WorkAdd sub) in
                match err with
                | Some _ =>
                    let '(fx, e2) := do_call fx WorkStatus in
                    match e2 with
                    | Some e2 =>
                        (fx, inr (Returns (Some (fmt.Errorf
                           ("error adding: " ++ sub ++
                            " (invalud work status: " ++ errors.Error e2 ++ ")")%string))))
                    | None =>
                        (fx, inr (Returns (Some (fmt.Errorf
                           ("unable to add file: " ++ sub ++ " (" ++
                            decimal (length (body b)) ++ ")")%string))))
                    end
                | None => (fx, inl tt)
                end
            end
        end
    end.

Fixpoint add_loop (ch : commitHelper) (entries : list commitBody)
    (fx : effects) : effects * (unit + add_result) :=
  match entries with
  | [] => (fx, inl tt)
  | b :: rest =>
      match add_entry ch b fx with
      | (fx, inl _) => add_loop ch rest fx
      | (fx, inr r) => (fx, inr r)
      end
  end.

Definition add (ch : commitHelper) (opts : commitOptions) (w : World)
    : effects * add_result :=
  match add_loop ch (opts_body opts) (w, []) with
  | (fx, inr r) => (fx, r)
  | (fx, inl _) =>
      let user :=
        match users ch !! userID opts with
        | Some u => u
        | None =>
            mkUserInfo 0 "" "admin@unknown.org" "admin" "" "" "" ""
                       time.zeroTime time.zeroTime false false time.zeroTime
        end in
      let sig := getAuthor user in
      let sig :=
        if 10 <? time.Unix (when opts)
        then mkSignature (sig_Name sig) (sig_Email sig) (when opts)
        else sig in
      let '(fx, err) := do_call fx (WorkCommit (comment opts) sig) in
      (fx, Returns err)
  end.

(** *** Vocabulary for the statements *)

Definition is_commit (c : call) : bool :=
  match c with WorkCommit _ _ => true | _ => false end.

Definition no_commit (log : list call) : bool :=
  forallb (fun c => negb (is_commit c)) log.

Definition within_root (ch : commitHelper) (b : commitBody) : bool :=
  String.prefix (orgDir ch) (fpath b).



(** The three calls that stage one entry. *)
Definition staging (ch : commitHelper) (b : commitBody) : list call :=
  [MkdirAll (path_Dir (fpath b)); WriteFile (fpath b) (body b)] ++
  match slice_from (fpath b) (String.length (workDir ch) + 1) with
  | Some sub => [WorkAdd sub]
  | None => []
  end.

End Add.

End commit_helper.

(* ===================================================================== *)
(** ** Concurrent callers of the provider *)
(* ===================================================================== *)

(** Several goroutines call [updateDetectors] and [ProvideDetectors] on one
    [Dynamic].  Each call advances statement by statement; the statements
    of different calls interleave in any order.  A call that finds the
    lock taken cannot take its step.  (Go's [RWMutex] also keeps new
    readers out while a writer waits; that bears on who waits, not on what
    can be observed, and is not modelled.) *)

Section Interleaving.
Context `{Service} `{!Transport}.

(** Where a call of [updateDetectors] stands, named by the statement it
    executes next, with the local variables live there. *)
Inductive update_pc : Type :=
| AtLock
| AtFetch
| AtConvert (patterns : GCOMPatterns)
| AtSet (patterns : GCOMPatterns) (newDetectors : slice AngularDetector)
| AtSwap (newDetectors : slice AngularDetector)
| AtUnlock (ret : option error).

(** Where a call of [ProvideDetectors] stands. *)
Inductive provide_pc : Type :=
| AtRLock
| AtRead
| AtRUnlock (r : slice AngularDetector).

Inductive thread : Type :=
| Idle
| InUpdate (pc : update_pc)
| InProvide (pc : provide_pc).

(** What a goroutine does when it is scheduled: begin a call, or execute
    the next statement of the call it is in ([net]: how the remote end
    answers, should the statement be the fetch). *)
Inductive action : Type :=
| CallUpdate
| CallProvide
| Advance (net : Network).

Definition update_step (net : Network) (d : Dynamic) (pc : update_pc)
    : option (Dynamic * thread) :=
  match pc with
  | AtLock =>
      match Lock (mux d) with
      | Some m => Some (set_mux m d, InUpdate AtFetch)
      | None => None
      end
  | AtFetch =>
      match fetch net d with
      | inr err =>
          Some (d, InUpdate (AtUnlock (Some (fmt.Errorf_w "fetch: " err))))
      | inl patterns => Some (d, InUpdate (AtConvert patterns))
      end
  | AtConvert patterns =>
      match patternsToDetectors patterns with
      | (_, Some err) =>
          Some (d, InUpdate (AtUnlock
                  (Some (fmt.Errorf_w "patterns convert to detectors: " err))))
      | (newDetectors, None) => Some (d, InUpdate (AtSet patterns newDetectors))
      end
  | AtSet patterns newDetectors =>
      let '(s, err) := store_Set (store d) patterns in
      match err with
      | Some err =>
          Some (set_store s d,
                InUpdate (AtUnlock (Some (fmt.Errorf_w "store set: " err))))
      | None => Some (set_store s d, InUpdate (AtSwap newDetectors))
      end
  | AtSwap newDetectors =>
      Some (set_detectors newDetectors d, InUpdate (AtUnlock None))
  | AtUnlock _ => Some (unlocked d, Idle)
  end.

Definition provide_step (d : Dynamic) (pc : provide_pc)
    : option (Dynamic * thread) :=
  match pc with
  | AtRLock =>
      match RLock (mux d) with
      | Some m => Some (set_mux m d, InProvide AtRead)
      | None => None
      end
  | AtRead => Some (d, InProvide (AtRUnlock (detectors d)))
  | AtRUnlock _ => Some (set_mux (RUnlock (mux d)) d, Idle)
  end.

Definition thread_step (a : action) (d : Dynamic) (th : thread)
    : option (Dynamic * thread) :=
  match th, a with
  | Idle, CallUpdate => Some (d, InUpdate AtLock)
  | Idle, CallProvide => Some (d, InProvide AtRLock)
  | InUpdate pc, Advance net => update_step net d pc
  | InProvide pc, Advance _ => provide_step d pc
  | _, _ => None
  end.

Record system : Type := mkSystem {
  shared : Dynamic;
  threads : list thread;
}.

(** Goroutine [i] is scheduled and does [a]. *)
Definition system_step (c : system) (ia : nat * action) : option system :=
  match threads c !! fst ia with
  | None => None
  | Some th =>
      match thread_step (snd ia) (shared c) th with
      | None => None
      | Some (d, th') => Some (mkSystem d (<[fst ia := th']> (threads c)))
      end
  end.

(** Some goroutine stands at [Lock].  It may be waiting there, and while
    a writer waits [sync.RWMutex] lets no new reader in. *)
Definition stands_at_Lock (th : thread) : bool :=
  match th with InUpdate AtLock => true | _ => false end.

(** A step that the program takes however the mutex ranks the goroutines
    at [Lock]: a step of the system in which [RLock] is taken only when
    no goroutine stands at [Lock]. *)
Definition cautious_step (c : system) (ia : nat * action) : option system :=
  match threads c !! fst ia with
  | Some (InProvide AtRLock) =>
      if existsb stands_at_Lock (threads c) then None else system_step c ia
  | _ => system_step c ia
  end.

Fixpoint run_schedule (c : system) (schedule : list (nat * action))
    : option system :=
  match schedule with
  | [] => Some c
  | ia :: rest =>
      match system_step c ia with
      | None => None
      | Some c' => run_schedule c' rest
      end
  end.

(** A provider nobody has locked, and [n] goroutines that have yet to
    call. *)
Definition initial (d : Dynamic) (n : nat) : system :=
  mkSystem (set_mux freshMutex d) (replicate n Idle).

Definition reachable (c : system) : Prop :=
  exists d n schedule, run_schedule (initial d n) schedule = Some c.

(** The call holds, or should hold, the exclusive lock: it is past
    [Lock] and has not run the deferred [Unlock]. *)
Definition refreshing (th : thread) : bool :=
  match th with
  | InUpdate AtLock => false
  | InUpdate _ => true
  | _ => false
  end.

(** The call has persisted the new rules and not yet swapped the
    snapshot. *)
Definition persisted_not_swapped (th : thread) : bool :=
  match th with InUpdate (AtSwap _) => true | _ => false end.

(** The call is between [RLock] and [RUnlock]. *)
Definition reading (th : thread) : bool :=
  match th with
  | InProvide AtRead | InProvide (AtRUnlock _) => true
  | _ => false
  end.

Fixpoint count (p : thread -> bool) (l : list thread) : nat :=
  match l with
  | [] => O
  | th :: rest => ((if p th then 1 else 0) + count p rest)%nat
  end.

(** What the lock records agrees with where the calls stand. *)
Definition lock_invariant (c : system) : Prop :=
  count refreshing (threads c)
    = (if writer (mux (shared c)) then 1 else 0)%nat /\
  count reading (threads c) = readers (mux (shared c)) /\
  (writer (mux (shared c)) = true -> readers (mux (shared c)) = O).

End Interleaving.

(* ===================================================================== *)
(** ** Sample collaborators *)
(* ===================================================================== *)

(** Small instances of the interfaces above, on which the statements
    below are run. *)

Module Sample.

(** Modelled from the spec: a rule record has a name, a kind and a
    payload; compiling it gives a detector, or an error that is either
    the unknown-kind sentinel (wrapped) or a malformed-record error.  The
    compiler itself is outside the files at hand. *)
Record pattern : Type := mkPattern {
  Name : string;
  Type_ : string;
  Pattern : string;
}.

Inductive detector : Type :=
| ContainsBytesDetector (p : string)
| RegexDetector (re : string).

Definition compile (p : pattern) : option detector * option error :=
  if String.eqb (Type_ p) "contains"
  then (Some (ContainsBytesDetector (Pattern p)), None)
  else if String.eqb (Type_ p) "regex"
  then if String.eqb (Pattern p) "("
       then (None, Some (fmt.Errorf_w "regexp compile: "
                           (errorString "missing closing )")))
       else (Some (RegexDetector (Pattern p)), None)
  else (None, Some (fmt.Errorf_w (Type_ p ++ ": ") errUnknownPatternType)).

Definition compiler : Compiler :=
  {| GCOMPattern := pattern; Detector := detector; angularDetector := compile |}.

(** A line per record, fields separated by tabs. *)
Definition tab : ascii := ascii_of_nat 9.
Definition lf : ascii := ascii_of_nat 10.

Fixpoint split_on (c : ascii) (s : string) (field : string) : list string :=
  match s with
  | EmptyString => [field]
  | String a rest =>
      if Ascii.eqb a c then field :: split_on c rest EmptyString
      else split_on c rest (field ++ String a EmptyString)%string
  end.

Definition encode_pattern (p : pattern) : string :=
  (Name p ++ String tab (Type_ p) ++ String tab (Pattern p) ++
   String lf EmptyString)%string.

Definition encode (ps : list pattern) : string :=
  String.concat EmptyString (map encode_pattern ps).

Fixpoint decode_lines (lines : list string) : list pattern + error :=
  match lines with
  | [] => inl []
  | [EmptyString] => inl []
  | line :: rest =>
      match split_on tab line EmptyString with
      | [n; t; p] =>
          match decode_lines rest with
          | inl ps => inl (mkPattern n t p :: ps)
          | inr e => inr e
          end
      | _ => inr (errorString "unexpected end of input")
      end
  end.

Definition decode (raw : string) : @GCOMPatterns compiler + error :=
  decode_lines (split_on lf raw EmptyString).

(** Modelled from the spec: a durable store holding the raw rule set and
    the instant of its last update, advanced when a rule set is
    persisted.  [ms_readError] and [ms_writeError] stand for an outage: a
    failing read reports no value, a failing write changes nothing. *)
Record memStore : Type := mkMemStore {
  ms_raw : string;
  ms_present : bool;
  ms_lastUpdated : time.Time;
  ms_clock : time.Time;
  ms_readError : option error;
  ms_writeError : option error;
}.

Definition ms_Get (s : memStore) : string * bool * option error :=
  match ms_readError s with
  | Some e => (EmptyString, false, Some e)
  | None => (ms_raw s, ms_present s, None)
  end.

Definition ms_Set (s : memStore) (ps : @GCOMPatterns compiler)
    : memStore * option error :=
  match ms_writeError s with
  | Some e => (s, Some e)
  | None =>
      (mkMemStore (encode ps) true (ms_clock s) (ms_clock s)
                  (ms_readError s) None, None)
  end.

Definition ms_GetLastUpdated (s : memStore) : time.Time * option error :=
  match ms_readError s with
  | Some e => (time.zeroTime, Some e)
  | None => (ms_lastUpdated s, None)
  end.

Definition service : @Service compiler :=
  {| Store := memStore;
     store_Get := ms_Get;
     store_Set := ms_Set;
     store_GetLastUpdated := ms_GetLastUpdated |}.

Definition transport : @Transport compiler :=
  {| Request := string;
     Response := string;
     gcomAngularPatternsPath := "/api/plugins/angular_patterns";
     url_JoinPath := fun base elem =>
       if String.eqb base "" then inr (errorString "missing protocol scheme")
       else inl (base ++ elem)%string;
     http_NewRequestWithContext := fun url => inl url;
     json_Decode := decode;
     json_Unmarshal := decode |}.

Definition Dyn : Type := @Dynamic compiler service.

(** A remote end that serves [ps], and one that is down. *)
Definition serving (ps : list pattern) : @Network compiler transport :=
  fun _ => inl (encode ps).

Definition unreachable : @Network compiler transport :=
  fun _ => inr (errorString "dial tcp: connection refused").

Definition p_contains : pattern := mkPattern "ngController" "contains" "ng-controller".
Definition p_regex : pattern := mkPattern "angularImport" "regex" "from 'angular'".
Definition p_broken : pattern := mkPattern "broken" "regex" "(".
Definition p_future : pattern := mkPattern "future" "wasm" "00 61 73 6d".

Definition emptyStore (clock : time.Time) : memStore :=
  mkMemStore EmptyString false time.zeroTime clock None None.

Definition storeUpdatedAt (t clock : time.Time) : memStore :=
  mkMemStore (encode [p_contains]) true t clock None None.

Definition dbDown : error := errorString "database is locked".

Definition readFailing : memStore :=
  mkMemStore (encode [p_contains]) true 0 0 (Some dbDown) None.

Definition writeFailing : memStore :=
  mkMemStore (encode [p_contains]) true 0 0 None (Some dbDown).

Definition provider (s : memStore) : Dyn :=
  @mkDynamic compiler service true "https://grafana.com" s None freshMutex.

(** A file system that refuses to write some paths, and a work tree. *)
Record disk : Type := mkDisk {
  files : list (string * list Byte.byte);
  staged : list string;
  commits : list (string * commit_helper.Signature);
  readonly : list string;
}.

Definition disk_perform (w : disk) (c : commit_helper.call)
    : disk * option error :=
  match c with
  | commit_helper.MkdirAll _ => (w, None)
  | commit_helper.WriteFile name data =>
      if existsb (String.eqb name) (readonly w)
      then (w, Some (errorString "permission denied"))
      else (mkDisk ((name, data) :: files w) (staged w) (commits w)
                   (readonly w), None)
  | commit_helper.WorkAdd sub =>
      (mkDisk (files w) (staged w ++ [sub]) (commits w) (readonly w), None)
  | commit_helper.WorkStatus => (w, None)
  | commit_helper.WorkCommit msg author =>
      (mkDisk (files w) [] (commits w ++ [(msg, author)]) (readonly w), None)
  end.

(** The directory part: up to the last slash. *)
Fixpoint dir_of (s : string) (seen : string) (dir : string) : string :=
  match s with
  | EmptyString => dir
  | String a rest =>
      if Ascii.eqb a "/"
      then dir_of rest (seen ++ "/")%string seen
      else dir_of rest (seen ++ String a EmptyString)%string dir
  end.

Definition worktree : commit_helper.Worktree :=
  {| commit_helper.World := disk;
     commit_helper.perform := disk_perform;
     commit_helper.path_Dir := fun s => dir_of s EmptyString "." |}.

Definition emptyDisk : disk := mkDisk [] [] [] [].

Definition helper : commit_helper.commitHelper :=
  commit_helper.mkCommitHelper "/repo/org_1" "/repo" 1 ∅.

Definition bytes_hi : list Byte.byte := [Byte.x68; Byte.x69].

Definition inside : commit_helper.commitBody :=
  commit_helper.mkCommitBody "/repo/org_1/dash/a.json" bytes_hi.

Definition outside : commit_helper.commitBody :=
  commit_helper.mkCommitBody "/etc/passwd" bytes_hi.

(** A world that accepts every call. *)
Definition obliging : commit_helper.Worktree :=
  {| commit_helper.World := unit;
     commit_helper.perform := fun w _ => (w, None);
     commit_helper.path_Dir := fun s => dir_of s EmptyString "." |}.

(** A work tree whose index cannot be written. *)
Definition lockedIndex : commit_helper.Worktree :=
  {| commit_helper.World := unit;
     commit_helper.perform := fun w c =>
       match c with
       | commit_helper.WorkAdd _ =>
           (w, Some (errorString "index.lock: file exists"))
       | _ => (w, None)
       end;
     commit_helper.path_Dir := fun s => dir_of s EmptyString "." |}.

Definition user (id : Z) (login email name : string)
    : commit_helper.userInfo :=
  commit_helper.mkUserInfo id login email name "" "" "Editor" ""
    time.zeroTime time.zeroTime false false time.zeroTime.

Definition ada : commit_helper.userInfo := user 7 "ada" "ada@example.org" "".
Definition bob : commit_helper.userInfo := user 8 "bob" "" "Bob".
Definition ada_again : commit_helper.userInfo :=
  user 7 "ada" "ada@example.com" "Ada".

(** A database with three rows for org 1 and an outage for the others. *)
Definition users_table (org : Z)
    : list commit_helper.userInfo + error :=
  if org =? 1 then inl [ada; bob; ada_again] else inr dbDown.



(** A root that is both [orgDir] and [workDir], as for a single org. *)
Definition single : commit_helper.commitHelper :=
  commit_helper.mkCommitHelper "/repo" "/repo" 1 ∅.

Definition root_itself : commit_helper.commitBody :=
  commit_helper.mkCommitBody "/repo" bytes_hi.

End Sample.

(* ===================================================================== *)
(** * Properties *)
(* ===================================================================== *)

(** ** Joined errors *)

Lemma string_app_assoc (a b c : string) :
  ((a ++ b) ++ c = a ++ (b ++ c))%string.
Proof.
  induction a as [|ch a IH]; [reflexivity|].
  change (String ch ((a ++ b) ++ c) = String ch (a ++ (b ++ c)))%string.
  now f_equal.
Qed.

Lemma concat_cons2 (sep x y : string) (l : list string) :
  String.concat sep (x :: y :: l)
  = (x ++ sep ++ String.concat sep (y :: l))%string.
Proof. reflexivity. Qed.

(** Joining [x] and [y] first and the rest afterwards prints like joining
    all at once. *)
Lemma concat_merge (sep x y : string) (l : list string) :
  String.concat sep ((x ++ sep ++ y)%string :: l)
  = String.concat sep (x :: y :: l).
Proof.
  destruct l as [|z l].
  - reflexivity.
  - rewrite !concat_cons2. now rewrite !string_app_assoc.
Qed.

Lemma join_all_some (errs : list error) (a : error) :
  exists fe, join_all errs (Some a) = Some fe.
Proof.
  revert a. induction errs as [|e errs IH]; intros a; simpl.
  - now exists a.
  - apply IH.
Qed.

Lemma join_all_nonempty (e : error) (errs : list error) :
  exists fe, join_all (e :: errs) None = Some fe.
Proof. simpl. apply join_all_some. Qed.

Lemma join_all_reaches_init (errs : list error) (a fe t : error) :
  join_all errs (Some a) = Some fe -> reaches a t -> reaches fe t.
Proof.
  revert a. induction errs as [|e errs IH]; intros a Hj Ht; simpl in Hj.
  - now injection Hj as <-.
  - eapply IH; [exact Hj|].
    apply reaches_join with (e := a); [now left | exact Ht].
Qed.

Lemma join_all_reaches (errs : list error) (acc : option error) (fe e : error) :
  join_all errs acc = Some fe -> In e errs -> reaches fe e.
Proof.
  revert acc. induction errs as [|x errs IH]; intros acc Hj Hin.
  - destruct Hin.
  - simpl in Hj. destruct Hin as [->|Hin].
    + destruct acc as [a|]; simpl in Hj.
      * eapply join_all_reaches_init; [exact Hj|].
        apply reaches_join with (e := e); [right; now left | constructor].
      * eapply join_all_reaches_init; [exact Hj|].
        apply reaches_join with (e := e); [now left | constructor].
    + eapply IH; [exact Hj | exact Hin].
Qed.

Lemma join_all_Error_init (errs : list error) (a fe : error) :
  join_all errs (Some a) = Some fe ->
  Error fe = String.concat newline (Error a :: map Error errs).
Proof.
  revert a. induction errs as [|e errs IH]; intros a Hj; simpl in Hj.
  - now injection Hj as <-.
  - rewrite (IH _ Hj). cbn [map Error].
    change (String.concat newline [Error a; Error e])
      with (Error a ++ newline ++ Error e)%string.
    apply concat_merge.
Qed.

Lemma join_all_Error (errs : list error) (fe : error) :
  join_all errs None = Some fe ->
  Error fe = String.concat newline (map Error errs).
Proof.
  destruct errs as [|e errs]; simpl; intros Hj; [discriminate|].
  change (Join [None; Some e]) with (Some (joinError [e])) in Hj.
  rewrite (join_all_Error_init _ _ _ Hj). reflexivity.
Qed.

(** ** Batch conversion *)

Section ConversionFacts.
Context `{Compiler}.

Lemma fatalErrors_cons (p : GCOMPattern) (ps : GCOMPatterns) :
  fatalErrors (p :: ps)
  = match fatal p with Some e => e :: fatalErrors ps | None => fatalErrors ps end.
Proof. unfold fatalErrors. simpl. now destruct (fatal p). Qed.

Lemma fatalErrors_app (l1 l2 : GCOMPatterns) :
  fatalErrors (l1 ++ l2) = fatalErrors l1 ++ fatalErrors l2.
Proof.
  induction l1 as [|p l1 IH]; [reflexivity|].
  change ((p :: l1) ++ l2) with (p :: (l1 ++ l2)).
  rewrite !fatalErrors_cons, IH. now destruct (fatal p).
Qed.

Lemma fatalErrors_In (ps : GCOMPatterns) (p : GCOMPattern) (e : error) :
  In p ps -> fatal p = Some e -> In e (fatalErrors ps).
Proof.
  induction ps as [|q ps IH]; intros Hin Hf; [destruct Hin|].
  rewrite fatalErrors_cons. destruct Hin as [->|Hin].
  - rewrite Hf. now left.
  - destruct (fatal q); [right|]; now apply IH.
Qed.

Lemma kept_cons (p : GCOMPattern) (ps : GCOMPatterns) :
  kept (p :: ps)
  = if skipped p then kept ps else fst (angularDetector p) :: kept ps.
Proof. unfold kept. simpl. now destruct (skipped p). Qed.

(** What the loop leaves in its two variables. *)
Lemma patternsToDetectors_loop_spec (ps : GCOMPatterns)
    (finalErr : option error) (acc : list AngularDetector) :
  patternsToDetectors_loop ps finalErr acc
  = (join_all (fatalErrors ps) finalErr, acc ++ kept ps).
Proof.
  revert finalErr acc. induction ps as [|p ps IH]; intros finalErr acc.
  - simpl. unfold kept. simpl. now rewrite app_nil_r.
  - simpl. rewrite fatalErrors_cons, kept_cons. unfold fatal, skipped.
    destruct (angularDetector p) as [ad [e|]]; simpl.
    + destruct (Is_errUnknownPatternType e); simpl.
      * apply IH.
      * rewrite IH. now rewrite <- app_assoc.
    + rewrite IH. now rewrite <- app_assoc.
Qed.

Lemma compiles_fatalErrors (ps : GCOMPatterns) :
  Forall compiles ps -> fatalErrors ps = [].
Proof.
  induction 1 as [|p ps Hp _ IH]; [reflexivity|].
  rewrite fatalErrors_cons. unfold fatal. now rewrite Hp.
Qed.

Lemma compiles_kept (ps : GCOMPatterns) :
  Forall compiles ps -> kept ps = map (fun p => fst (angularDetector p)) ps.
Proof.
  induction 1 as [|p ps Hp _ IH]; [reflexivity|].
  rewrite kept_cons. unfold skipped. rewrite Hp. simpl. now rewrite IH.
Qed.

Lemma kept_app (l1 l2 : GCOMPatterns) : kept (l1 ++ l2) = kept l1 ++ kept l2.
Proof. unfold kept. now rewrite List.filter_app, map_app. Qed.

(** C2.  When some record fails to compile with an error that is not the
    unknown-type sentinel, [patternsToDetectors] returns the nil slice and
    a non-nil error.  That error is the join, built one failure at a time
    over the whole batch, of every such failure: each of them is found in
    it, and its text lists them all, one per line.  No detector list, not
    even a partial one, is returned. *)
Theorem patternsToDetectors_fails_whole_batch (ps : GCOMPatterns) :
  (exists p ad e, In p ps /\ angularDetector p = (ad, Some e) /\
                  Is_errUnknownPatternType e = false) ->
  exists finalErr,
    patternsToDetectors ps = (None, Some finalErr) /\
    join_all (fatalErrors ps) None = Some finalErr /\
    (forall p ad e, In p ps -> angularDetector p = (ad, Some e) ->
                    Is_errUnknownPatternType e = false ->
                    reaches finalErr e) /\
    Error finalErr = String.concat newline (map Error (fatalErrors ps)).
Proof.
  intros (p & ad & e & Hin & Hc & Hu).
  assert (Hf : fatal p = Some e) by (unfold fatal; rewrite Hc; simpl; now rewrite Hu).
  pose proof (fatalErrors_In ps p e Hin Hf) as HinE.
  destruct (fatalErrors ps) as [|e0 errs] eqn:HE; [destruct HinE|].
  destruct (join_all_nonempty e0 errs) as [fe Hfe].
  exists fe. unfold patternsToDetectors.
  rewrite patternsToDetectors_loop_spec, HE, Hfe.
  split; [reflexivity|]. split; [reflexivity|]. split.
  - intros q adq eq Hq Hcq Huq.
    apply (join_all_reaches (e0 :: errs) None); [exact Hfe|].
    rewrite <- HE. apply (fatalErrors_In ps q); [exact Hq|].
    unfold fatal. rewrite Hcq. simpl. now rewrite Huq.
  - now apply join_all_Error.
Qed.

(** C3.  A batch made of one record whose compilation fails with the
    unknown-type sentinel and of N records that compile converts without
    error into exactly the N detectors of those records, in order; the
    unknown record adds no element. *)
Theorem patternsToDetectors_skips_unknown (l1 l2 : GCOMPatterns)
    (u : GCOMPattern) (ad : AngularDetector) (e : error) :
  angularDetector u = (ad, Some e) ->
  Is_errUnknownPatternType e = true ->
  Forall compiles (l1 ++ l2) ->
  patternsToDetectors (l1 ++ u :: l2)
  = (Some (map (fun p => fst (angularDetector p)) (l1 ++ l2)), None) /\
  len (fst (patternsToDetectors (l1 ++ u :: l2)))
  = (length l1 + length l2)%nat.
Proof.
  intros Hc Hu Hall.
  assert (Hfu : fatal u = None) by (unfold fatal; rewrite Hc; simpl; now rewrite Hu).
  assert (Hsu : skipped u = true) by (unfold skipped; now rewrite Hc).
  assert (HE : fatalErrors (l1 ++ u :: l2) = []).
  { rewrite fatalErrors_app, fatalErrors_cons, Hfu, <- fatalErrors_app.
    now apply compiles_fatalErrors. }
  assert (HK : kept (l1 ++ u :: l2)
               = map (fun p => fst (angularDetector p)) (l1 ++ l2)).
  { rewrite kept_app, kept_cons, Hsu, <- kept_app. now apply compiles_kept. }
  assert (HR : patternsToDetectors (l1 ++ u :: l2)
               = (Some (map (fun p => fst (angularDetector p)) (l1 ++ l2)), None)).
  { unfold patternsToDetectors.
    rewrite patternsToDetectors_loop_spec, HE, HK. reflexivity. }
  split; [exact HR|].
  rewrite HR. simpl. now rewrite length_map, length_app.
Qed.

End ConversionFacts.

Lemma patternsToDetectors_fails_whole_batch_witness :
  let ps := [Sample.p_contains; Sample.p_broken; Sample.p_future;
             Sample.p_broken; Sample.p_regex] in
  exists finalErr,
    @patternsToDetectors Sample.compiler ps = (None, Some finalErr) /\
    Error finalErr
    = String.concat newline
        (map Error (@fatalErrors Sample.compiler ps)).
Proof.
  intros ps.
  destruct (@patternsToDetectors_fails_whole_batch Sample.compiler ps)
    as (fe & Hr & _ & _ & Hmsg).
  - exists Sample.p_broken, None,
      (fmt.Errorf_w "regexp compile: " (errorString "missing closing )")).
    split; [right; now left | split; reflexivity].
  - exists fe. now split.
Defined.

Lemma patternsToDetectors_skips_unknown_witness :
  @patternsToDetectors Sample.compiler
    ([Sample.p_contains] ++ Sample.p_future :: [Sample.p_regex])
  = (Some [Some (Sample.ContainsBytesDetector "ng-controller");
           Some (Sample.RegexDetector "from 'angular'")], None).
Proof.
  apply (@patternsToDetectors_skips_unknown Sample.compiler
           [Sample.p_contains] [Sample.p_regex] Sample.p_future None
           (fmt.Errorf_w "wasm: " errUnknownPatternType)).
  - reflexivity.
  - reflexivity.
  - repeat constructor.
Defined.

(** ** Refresh cycle, restore and read *)

Section ProviderFacts.
Context `{Service} `{!Transport}.

Lemma Lock_fresh : Lock freshMutex = Some (mkRWMutex true O).
Proof. reflexivity. Qed.

Lemma unlocked_after_Lock (d : Dynamic) :
  mux d = freshMutex -> unlocked (set_mux (mkRWMutex true O) d) = d.
Proof. destruct d as [f b s ds m]. simpl. intros ->. reflexivity. Qed.

(** A cycle run by a single caller goes through, whatever the remote end
    and the store do, and gives the lock back. *)
Lemma updateDetectors_returns (net : Network) (d : Dynamic) :
  mux d = freshMutex ->
  exists d' r, updateDetectors net d = Some (d', r) /\ mux d' = freshMutex.
Proof.
  intros Hm. unfold updateDetectors. rewrite Hm, Lock_fresh.
  destruct (fetch net _) as [patterns|err]; [|eexists _, _; split; reflexivity].
  destruct (patternsToDetectors patterns) as [nd [err|]];
    [eexists _, _; split; reflexivity|].
  destruct (store_Set _ patterns) as [s [err|]]; eexists _, _; split; reflexivity.
Qed.

(** C1.  In a refresh cycle whose fetch and conversion succeed and whose
    [store.Set] fails, [updateDetectors] returns the store's error wrapped
    as "store set: ..." and the detectors in memory are those from before
    the cycle.  In general, when a failing [store.Set] leaves the store as
    it was, a cycle ends in one of two ways: without error, the store
    having taken the fetched patterns and the detectors being their
    conversion; or with an error, store and detectors both as before. *)
Theorem updateDetectors_store_and_snapshot_agree (net : Network) (d : Dynamic) :
  mux d = freshMutex ->
  (forall patterns newDetectors s e,
      fetch net d = inl patterns ->
      patternsToDetectors patterns = (newDetectors, None) ->
      store_Set (store d) patterns = (s, Some e) ->
      exists d',
        updateDetectors net d = Some (d', Some (fmt.Errorf_w "store set: " e)) /\
        detectors d' = detectors d) /\
  ((forall s patterns s' e, store_Set s patterns = (s', Some e) -> s' = s) ->
   exists d' r,
     updateDetectors net d = Some (d', r) /\
     ((r = None /\
       exists patterns,
         fetch net d = inl patterns /\
         store_Set (store d) patterns = (store d', None) /\
         patternsToDetectors patterns = (detectors d', None)) \/
      (r <> None /\ store d' = store d /\ detectors d' = detectors d))).
Proof.
  intros Hm. split.
  - intros patterns nd s e Hf Hc Hs.
    unfold updateDetectors. rewrite Hm, Lock_fresh.
    change (fetch net (set_mux (mkRWMutex true O) d)) with (fetch net d).
    rewrite Hf, Hc. cbn [store set_mux]. rewrite Hs.
    eexists. split; reflexivity.
  - intros Hatomic. unfold updateDetectors. rewrite Hm, Lock_fresh.
    change (fetch net (set_mux (mkRWMutex true O) d)) with (fetch net d).
    destruct (fetch net d) as [patterns|err] eqn:Hf.
    + destruct (patternsToDetectors patterns) as [nd [err|]] eqn:Hc.
      * eexists _, _. split; [reflexivity|]. right. now repeat split.
      * cbn [store set_mux].
        destruct (store_Set (store d) patterns) as [s [err|]] eqn:Hs.
        -- eexists _, _. split; [reflexivity|]. right.
           split; [discriminate|]. split; [|reflexivity].
           simpl. eapply Hatomic, Hs.
        -- eexists _, _. split; [reflexivity|]. left.
           split; [reflexivity|]. exists patterns. simpl. now repeat split.
    + eexists _, _. split; [reflexivity|]. right. now repeat split.
Qed.

(** The restore, read off its three outcomes of [store.Get]. *)
Lemma setDetectorsFromCache_absent (d : Dynamic) (raw : string)
    (err : option error) :
  mux d = freshMutex ->
  store_Get (store d) = (raw, false, err) ->
  setDetectorsFromCache d = Some (d, None).
Proof.
  intros Hm Hg. unfold setDetectorsFromCache. rewrite Hm, Lock_fresh.
  cbn [store set_mux]. rewrite Hg. simpl negb. cbv iota.
  now rewrite unlocked_after_Lock.
Qed.

Lemma setDetectorsFromCache_present_error (d : Dynamic) (raw : string)
    (e : error) :
  mux d = freshMutex ->
  store_Get (store d) = (raw, true, Some e) ->
  setDetectorsFromCache d
  = Some (d, Some (fmt.Errorf_w "get cached value: " e)).
Proof.
  intros Hm Hg. unfold setDetectorsFromCache. rewrite Hm, Lock_fresh.
  cbn [store set_mux]. rewrite Hg. simpl negb. cbv iota.
  now rewrite unlocked_after_Lock.
Qed.

(** C7.  [ProvideDetectors], called while no refresh holds the lock,
    returns the value of [d.detectors] and leaves the provider as it was.
    On a provider whose detectors were never set -- as [ProvideDynamic]
    builds it when the service is disabled or the store holds no value --
    that value is the nil slice, of length 0 and without elements; there is
    no error among its results. *)
Theorem ProvideDetectors_returns_snapshot (d : Dynamic) :
  writer (mux d) = false ->
  ProvideDetectors d = Some (d, detectors d) /\
  (detectors d = None ->
   ProvideDetectors d = Some (d, None) /\
   len (detectors d) = O /\ elems (detectors d) = []) /\
  (forall url s, detectors (ProvideDynamic url s false) = None) /\
  (forall url s raw err,
      store_Get s = (raw, false, err) ->
      detectors (ProvideDynamic url s true) = None).
Proof.
  intros Hw.
  assert (HP : ProvideDetectors d = Some (d, detectors d)).
  { destruct d as [f b s ds [w n]]. simpl in Hw. subst w. reflexivity. }
  split; [exact HP|]. split; [|split].
  - intros Hn. rewrite HP, Hn. now repeat split.
  - reflexivity.
  - intros url s raw err Hg. unfold ProvideDynamic. simpl IsDisabled. cbv iota.
    erewrite setDetectorsFromCache_absent; [reflexivity | reflexivity | exact Hg].
Qed.

End ProviderFacts.

Lemma updateDetectors_store_and_snapshot_agree_witness :
  let d := Sample.provider Sample.writeFailing in
  let net := Sample.serving [Sample.p_regex; Sample.p_future] in
  (exists d',
     @updateDetectors Sample.compiler Sample.service Sample.transport net d
     = Some (d', Some (fmt.Errorf_w "store set: " Sample.dbDown)) /\
     detectors d' = detectors d) /\
  (exists d' r,
     @updateDetectors Sample.compiler Sample.service Sample.transport net d
     = Some (d', r) /\ r <> None /\ store d' = store d).
Proof.
  intros d net.
  destruct (@updateDetectors_store_and_snapshot_agree
              Sample.compiler Sample.service Sample.transport net d eq_refl)
    as [Hfail Hall].
  split.
  - apply (Hfail [Sample.p_regex; Sample.p_future]
                 (Some [Some (Sample.RegexDetector "from 'angular'")])
                 Sample.writeFailing Sample.dbDown); reflexivity.
  - destruct Hall as (d' & r & Hu & [(Hr & _)|(Hr & Hs & _)]).
    + intros s ps s' e. simpl. unfold Sample.ms_Set.
      destruct (Sample.ms_writeError s); intros [= <- _]; reflexivity.
    + rewrite Hr in Hu. vm_compute in Hu. discriminate Hu.
    + exists d', r. now repeat split.
Defined.

(** C4, at a store whose read fails.  Such a store answers [Get] with no
    value, not present, and the error; [setDetectorsFromCache] tests the
    presence flag before the error and returns nil. *)
Theorem setDetectorsFromCache_drops_read_error :
  @store_Get Sample.compiler Sample.service Sample.readFailing
  = (EmptyString, false, Some Sample.dbDown) /\
  @setDetectorsFromCache Sample.compiler Sample.service Sample.transport
    (Sample.provider Sample.readFailing)
  = Some (Sample.provider Sample.readFailing, None).
Proof. split; reflexivity. Qed.

Lemma ProvideDetectors_returns_snapshot_witness :
  let d := Sample.provider (Sample.emptyStore 0) in
  writer (mux d) = false /\
  @ProvideDetectors Sample.compiler Sample.service d = Some (d, None).
Proof.
  intros d. split; [reflexivity|].
  exact (proj1 (@ProvideDetectors_returns_snapshot
                  Sample.compiler Sample.service Sample.transport d eq_refl)).
Defined.

(** ** The background service *)

Section SchedulerFacts.
Context `{Service} `{!Transport}.

Lemma time_Sub_exact (t u : time.Time) :
  time.minDuration <= t - u <= time.maxDuration -> time.Sub t u = t - u.
Proof.
  intros [Hlo Hhi]. unfold time.Sub.
  destruct (Z.ltb_spec (t - u) time.minDuration); [lia|].
  destruct (Z.ltb_spec time.maxDuration (t - u)); [lia|reflexivity].
Qed.

(** Saturation keeps the sign. *)
Lemma time_Sub_sign (t u : time.Time) : time.Sub t u <= 0 <-> t - u <= 0.
Proof.
  unfold time.Sub, time.minDuration, time.maxDuration.
  destruct (Z.ltb_spec (t - u) (- 2 ^ 63)); [lia|].
  destruct (Z.ltb_spec (2 ^ 63 - 1) (t - u)); lia.
Qed.

(** *** The ticker *)

Lemma ticker_at_before (t : time.Time) (tk : time.Ticker) :
  t < time.next_fire tk -> time.ticker_at t tk = tk.
Proof.
  intros Hlt. unfold time.ticker_at.
  destruct (Z.leb_spec (time.next_fire tk) t); [lia|reflexivity].
Qed.

Lemma ticker_at_due (t : time.Time) (tk : time.Ticker) :
  time.next_fire tk <= t -> time.pending (time.ticker_at t tk) = true.
Proof.
  intros Hle. unfold time.ticker_at.
  destruct (Z.leb_spec (time.next_fire tk) t); [reflexivity|lia].
Qed.

Lemma receive_before (t : time.Time) (tk : time.Ticker) :
  time.pending tk = false -> t < time.next_fire tk ->
  time.receive t tk = None.
Proof.
  intros Hp Hlt. unfold time.receive.
  rewrite (ticker_at_before t tk Hlt), Hp. reflexivity.
Qed.

Lemma receive_due (t : time.Time) (tk : time.Ticker) :
  time.next_fire tk <= t -> exists tk', time.receive t tk = Some tk'.
Proof.
  intros Hle. unfold time.receive.
  rewrite (ticker_at_due t tk Hle). eexists. reflexivity.
Qed.

Lemma receive_tick_due (st : loop_state) (t : time.Time) :
  time.next_fire (ticker st) <= t ->
  exists tk, receive_tick st t = Some tk.
Proof.
  intros Hle. unfold receive_tick.
  destruct (from_first st); [eexists; reflexivity|].
  now apply receive_due.
Qed.

(** [ticker.Reset(d)] right after [time.NewTicker]. *)
Lemma Reset_NewTicker (chan : time.TimerChannel) (now : time.Time)
    (interval d : time.Duration) :
  0 < interval ->
  time.Reset chan now d (time.NewTicker now interval)
  = time.mkTicker d (now + d) false.
Proof.
  intros Hi. unfold time.Reset.
  rewrite ticker_at_before by (simpl; lia).
  now destruct chan.
Qed.

(** *** The loop *)

(** One firing: the cycle runs, its error is logged, the ticker is reset
    to the full period, and the loop goes on. *)
Lemma Run_loop_Tick (chan : time.TimerChannel) (ctx : context_Context)
    (interval : time.Duration) (st : loop_state) (t finished : time.Time)
    (net : Network) (rest : list event) (tk : time.Ticker) :
  mux (provider st) = freshMutex ->
  clock st <= t -> t <= finished ->
  receive_tick st t = Some tk ->
  exists d r,
    updateDetectors net (provider st) = Some (d, r) /\
    mux d = freshMutex /\
    Run_loop chan ctx interval st (Tick t net finished :: rest)
    = Run_loop chan ctx interval
        (mkLoop d finished false (time.Reset chan finished interval tk)
                (S (cycles st)) (log_Error r (logged st)))
        rest.
Proof.
  intros Hm Hclk Hfin Hrecv.
  destruct (updateDetectors_returns net (provider st) Hm) as (d & r & Hu & Hm').
  exists d, r. split; [exact Hu|]. split; [exact Hm'|].
  simpl. rewrite Hrecv, Hu.
  destruct (Z.leb_spec (clock st) t); [|lia].
  destruct (Z.leb_spec t finished); [|lia].
  reflexivity.
Qed.

(** What a firing reads from the loop's state, when it is one. *)
Lemma Run_loop_Tick_inv (chan : time.TimerChannel) (ctx : context_Context)
    (interval : time.Duration) (st : loop_state) (t finished : time.Time)
    (net : Network) (rest : list event) :
  mux (provider st) = freshMutex ->
  Run_loop chan ctx interval st (Tick t net finished :: rest)
  <> NotABehaviour ->
  exists tk d r,
    clock st <= t /\ t <= finished /\ receive_tick st t = Some tk /\
    updateDetectors net (provider st) = Some (d, r) /\
    mux d = freshMutex /\
    Run_loop chan ctx interval st (Tick t net finished :: rest)
    = Run_loop chan ctx interval
        (mkLoop d finished false (time.Reset chan finished interval tk)
                (S (cycles st)) (log_Error r (logged st)))
        rest.
Proof.
  intros Hm Hne. simpl in Hne |- *.
  destruct (Z.leb_spec (clock st) t); [|now destruct Hne].
  destruct (Z.leb_spec t finished); [|now destruct Hne].
  simpl in Hne |- *.
  destruct (receive_tick st t) as [tk|]; [|now destruct Hne].
  destruct (updateDetectors_returns net (provider st) Hm) as (d & r & Hu & Hm').
  rewrite Hu. exists tk, d, r. now repeat split.
Qed.



Lemma Run_loop_regular (chan : time.TimerChannel) (ctx : context_Context)
    (interval : time.Duration) (nets : list Network) :
  0 < interval ->
  forall (st : loop_state) (t : time.Time) (tk : time.Ticker),
    mux (provider st) = freshMutex ->
    clock st <= t -> receive_tick st t = Some tk ->
    exists st',
      Run_loop chan ctx interval st (regular_firings interval t nets)
      = Running st' /\
      cycles st' = (cycles st + length nets)%nat.
Proof.
  intros Hi. induction nets as [|net nets IH]; intros st t tk Hm Hclk Hrecv.
  - exists st. simpl. split; [reflexivity|lia].
  - cbn [regular_firings].
    destruct (Run_loop_Tick chan ctx interval st t t net
                (regular_firings interval (time.Add t interval) nets) tk
                Hm Hclk (Z.le_refl t) Hrecv)
      as (d & r & _ & Hm' & Hstep).
    rewrite Hstep.
    destruct (receive_tick_due
                (mkLoop d t false (time.Reset chan t interval tk)
                        (S (cycles st)) (log_Error r (logged st)))
                (time.Add t interval)) as [tk' Hrecv'];
      [simpl; unfold time.Add; lia|].
    destruct (IH (mkLoop d t false (time.Reset chan t interval tk)
                         (S (cycles st)) (log_Error r (logged st)))
                 (time.Add t interval) tk' Hm'
                 ltac:(simpl; unfold time.Add; lia) Hrecv')
      as (st' & Hrun & Hcyc).
    exists st'. split; [exact Hrun|]. rewrite Hcyc. simpl. lia.
Qed.


(** With the last update known and a positive period, [Run] enters the
    loop: with [firstTick] in hand when the next run is due, with the
    ticker reset to [nextRunUntil] when it is not. *)
Lemma Run_enters_loop (chan : time.TimerChannel) (ctx : context_Context)
    (interval : time.Duration) (now : time.Time) (d : Dynamic)
    (lastUpdate : time.Time) (events : list event) :
  0 < interval ->
  store_GetLastUpdated (store d) = (lastUpdate, None) ->
  Run chan ctx interval now d events
  = Run_loop chan ctx interval
      (if time.Until now (time.Add lastUpdate interval) <=? 0
       then mkLoop d now true (time.NewTicker now interval) O []
       else mkLoop d now false
              (time.mkTicker
                 (time.Until now (time.Add lastUpdate interval))
                 (now + time.Until now (time.Add lastUpdate interval))
                 false)
              O [])
      events.
Proof.
  intros Hi Hg. unfold Run. rewrite Hg.
  destruct (Z.leb_spec interval 0); [lia|].
  destruct (_ <=? 0); [reflexivity|].
  now rewrite Reset_NewTicker.
Qed.

(** The first firing of a run, received at [t] from the state [st0] in
    which [Run] enters the loop. *)
Lemma first_firing (chan : time.TimerChannel) (ctx : context_Context)
    (interval : time.Duration) (st0 : loop_state) (t finished : time.Time)
    (net : Network) (tk0 : time.Ticker) :
  mux (provider st0) = freshMutex ->
  cycles st0 = O -> logged st0 = [] ->
  clock st0 <= t -> t <= finished ->
  receive_tick st0 t = Some tk0 ->
  exists d' r tk,
    updateDetectors net (provider st0) = Some (d', r) /\
    Run_loop chan ctx interval st0 [Tick t net finished]
    = Running (mkLoop d' finished false tk 1 (log_Error r [])) /\
    time.period tk = interval /\
    time.next_fire tk = finished + interval.
Proof.
  intros Hm Hc Hl Hclk Hfin Hrecv.
  destruct (Run_loop_Tick chan ctx interval st0 t finished net [] tk0
              Hm Hclk Hfin Hrecv) as (d' & r & Hu & _ & Hstep).
  exists d', r, (time.Reset chan finished interval tk0).
  split; [exact Hu|]. split; [|split; reflexivity].
  rewrite Hstep, Hc, Hl. reflexivity.
Qed.

(** C8.  When reading the time of the last update fails, [Run] returns
    the error wrapped as "get last updated: ...", whatever events are
    there to be received: the loop is not entered, no cycle runs, and the
    provider it returns from -- store and detectors -- is the one it was
    called on. *)
Theorem Run_stops_when_last_update_unknown (chan : time.TimerChannel)
    (ctx : context_Context) (interval : time.Duration) (now : time.Time)
    (d : Dynamic) (events : list event) (t : time.Time) (e : error) :
  store_GetLastUpdated (store d) = (t, Some e) ->
  Run chan ctx interval now d events
  = Returned d (Some (fmt.Errorf_w "get last updated: " e)).
Proof. intros Hg. unfold Run. now rewrite Hg. Qed.

(** C5.  [Run], started at [now] with a positive period, computes
    [nextRunUntil] as the time until [lastUpdate + interval]; that is
    [lastUpdate + interval - now] whenever this fits a [Duration], and has
    its sign in any case.  When it is not positive, the first firing is
    received at [now] or at any later instant, with no wait.  When it is
    positive, no firing is received before [now + nextRunUntil], and one
    is received at that instant or any later one.  The first firing runs
    [updateDetectors] on the provider [Run] was given: the loop goes on
    with the provider the cycle leaves, one cycle counted, the cycle's
    error logged, and the ticker at the full period from the end of the
    cycle. *)
Theorem Run_first_firing (chan : time.TimerChannel) (ctx : context_Context)
    (interval : time.Duration) (now : time.Time) (d : Dynamic)
    (lastUpdate : time.Time) :
  0 < interval ->
  mux d = freshMutex ->
  store_GetLastUpdated (store d) = (lastUpdate, None) ->
  let nextRunUntil := time.Until now (time.Add lastUpdate interval) in
  (time.minDuration <= lastUpdate + interval - now <= time.maxDuration ->
   nextRunUntil = lastUpdate + interval - now) /\
  (nextRunUntil <= 0 <-> lastUpdate + interval - now <= 0) /\
  (nextRunUntil <= 0 ->
   forall t net finished, now <= t -> t <= finished ->
     exists d' r tk,
       updateDetectors net d = Some (d', r) /\
       Run chan ctx interval now d [Tick t net finished]
       = Running (mkLoop d' finished false tk 1 (log_Error r [])) /\
       time.period tk = interval /\
       time.next_fire tk = finished + interval) /\
  (0 < nextRunUntil ->
   (forall t net finished rest, t < now + nextRunUntil ->
      Run chan ctx interval now d (Tick t net finished :: rest)
      = NotABehaviour) /\
   (forall t net finished, now + nextRunUntil <= t -> t <= finished ->
      exists d' r tk,
        updateDetectors net d = Some (d', r) /\
        Run chan ctx interval now d [Tick t net finished]
        = Running (mkLoop d' finished false tk 1 (log_Error r [])) /\
        time.period tk = interval /\
        time.next_fire tk = finished + interval)).
Proof.
  intros Hi Hm Hg nextRunUntil.
  pose proof (fun events =>
                Run_enters_loop chan ctx interval now d lastUpdate events
                  Hi Hg) as Hrun.
  fold nextRunUntil in Hrun.
  split; [|split; [|split]].
  - intros Hrange. apply time_Sub_exact. unfold time.Add. exact Hrange.
  - unfold nextRunUntil, time.Until, time.Add. apply time_Sub_sign.
  - intros Hle t net finished Ht Hfin. rewrite Hrun.
    destruct (Z.leb_spec nextRunUntil 0); [|lia].
    apply (first_firing chan ctx interval
             (mkLoop d now true (time.NewTicker now interval) O [])
             t finished net
             (time.ticker_at t (time.NewTicker now interval)));
      try reflexivity; assumption.
  - intros Hpos. split.
    + intros t net finished rest Hlt. rewrite Hrun.
      destruct (Z.leb_spec nextRunUntil 0); [lia|].
      simpl.
      destruct ((now <=? t) && (t <=? finished)); [|reflexivity].
      unfold receive_tick. simpl.
      rewrite receive_before; [reflexivity | reflexivity | simpl; lia].
    + intros t net finished Ht Hfin. rewrite Hrun.
      destruct (Z.leb_spec nextRunUntil 0); [lia|].
      destruct (receive_tick_due
                  (mkLoop d now false
                     (time.mkTicker nextRunUntil (now + nextRunUntil) false)
                     O []) t) as [tk0 Hrecv]; [exact Ht|].
      apply (first_firing chan ctx interval
               (mkLoop d now false
                  (time.mkTicker nextRunUntil (now + nextRunUntil) false)
                  O [])
               t finished net tk0);
        try reflexivity; try assumption.
      simpl. lia.
Qed.


End SchedulerFacts.

Lemma Run_stops_when_last_update_unknown_witness :
  let d := Sample.provider Sample.readFailing in
  @Run Sample.compiler Sample.service Sample.transport time.Buffered
    (mkContext None) backgroundJobInterval 0 d
    [Tick 0 Sample.unreachable 1]
  = Returned d (Some (fmt.Errorf_w "get last updated: " Sample.dbDown)).
Proof.
  intros d.
  apply (@Run_stops_when_last_update_unknown
           Sample.compiler Sample.service Sample.transport time.Buffered
           (mkContext None) backgroundJobInterval 0 d
           [Tick 0 Sample.unreachable 1] time.zeroTime Sample.dbDown).
  reflexivity.
Defined.

Lemma Run_first_firing_witness :
  let now := 10 * time.Hour in
  let late := Sample.provider (Sample.storeUpdatedAt (now - 2 * time.Hour) now) in
  let recent :=
    Sample.provider (Sample.storeUpdatedAt (now - 10 * time.Minute) now) in
  let net := Sample.serving [Sample.p_regex] in
  (exists d' r tk,
     @updateDetectors Sample.compiler Sample.service Sample.transport net late
     = Some (d', r) /\
     @Run Sample.compiler Sample.service Sample.transport time.Buffered
       (mkContext None) time.Hour now late [Tick now net (now + 3)]
     = Running (mkLoop d' (now + 3) false tk 1 (log_Error r [])) /\
     detectors d' = Some [Some (Sample.RegexDetector "from 'angular'")]) /\
  @Run Sample.compiler Sample.service Sample.transport time.Buffered
    (mkContext None) time.Hour now recent
    [Tick (now + 49 * time.Minute) net (now + 50 * time.Minute)]
  = NotABehaviour /\
  (exists d' r tk,
     @Run Sample.compiler Sample.service Sample.transport time.Buffered
       (mkContext None) time.Hour now recent
       [Tick (now + 50 * time.Minute) net (now + 51 * time.Minute)]
     = Running (mkLoop d' (now + 51 * time.Minute) false tk 1
                       (log_Error r []))).
Proof.
  intros now late recent net. split; [|split].
  - destruct (@Run_first_firing
                Sample.compiler Sample.service Sample.transport time.Buffered
                (mkContext None) time.Hour now late (now - 2 * time.Hour)
                eq_refl eq_refl eq_refl) as (_ & _ & Himmediate & _).
    destruct (Himmediate ltac:(vm_compute; discriminate) now net (now + 3))
      as (d' & r & tk & Hu & Hrun & _); [apply Z.le_refl | lia |].
    exists d', r, tk. split; [exact Hu|]. split; [exact Hrun|].
    vm_compute in Hu. injection Hu as <- _. reflexivity.
  - destruct (@Run_first_firing
                Sample.compiler Sample.service Sample.transport time.Buffered
                (mkContext None) time.Hour now recent (now - 10 * time.Minute)
                eq_refl eq_refl eq_refl) as (_ & _ & _ & Hdeferred).
    destruct Hdeferred as [Hearly _]; [reflexivity|].
    apply Hearly. reflexivity.
  - destruct (@Run_first_firing
                Sample.compiler Sample.service Sample.transport time.Buffered
                (mkContext None) time.Hour now recent (now - 10 * time.Minute)
                eq_refl eq_refl eq_refl) as (_ & _ & _ & Hdeferred).
    destruct Hdeferred as [_ Hdue]; [reflexivity|].
    destruct (Hdue (now + 50 * time.Minute) net (now + 51 * time.Minute))
      as (d' & r & tk & _ & Hrun & _);
      [vm_compute; discriminate | vm_compute; discriminate |].
    now exists d', r, tk.
Defined.


(** ** The export commit helper *)

Section AddFacts.
Context `{commit_helper.Worktree}.

Lemma no_commit_snoc (log : list commit_helper.call) (c : commit_helper.call) :
  commit_helper.no_commit log = true ->
  commit_helper.is_commit c = false ->
  commit_helper.no_commit (log ++ [c]) = true.
Proof.
  unfold commit_helper.no_commit. intros Hl Hc.
  rewrite forallb_app, Hl. simpl. now rewrite Hc.
Qed.

Lemma do_call_log (fx fx' : commit_helper.effects) (c : commit_helper.call)
    (err : option error) :
  commit_helper.do_call fx c = (fx', err) -> snd fx' = snd fx ++ [c].
Proof.
  unfold commit_helper.do_call.
  destruct (commit_helper.perform (fst fx) c) as [w e].
  now intros [= <- _].
Qed.

(** One entry, gone through without leaving [add]: its path is within
    the root and its three calls were made. *)
Lemma add_entry_continues (ch : commit_helper.commitHelper)
    (b : commit_helper.commitBody) (fx fx' : commit_helper.effects) (u : unit) :
  commit_helper.add_entry ch b fx = (fx', inl u) ->
  commit_helper.within_root ch b = true /\
  snd fx' = snd fx ++ commit_helper.staging ch b.
Proof.
  unfold commit_helper.add_entry, commit_helper.within_root,
    commit_helper.staging.
  destruct (String.prefix _ _); simpl; [|discriminate].
  destruct (commit_helper.do_call fx _) as [fx1 [e|]] eqn:E1; [discriminate|].
  destruct (commit_helper.do_call fx1 _) as [fx2 [e|]] eqn:E2; [discriminate|].
  destruct (commit_helper.slice_from _ _) as [sub|]; [|discriminate].
  destruct (commit_helper.do_call fx2 _) as [fx3 [e|]] eqn:E3.
  - destruct (commit_helper.do_call fx3 _) as [fx4 [e2|]]; discriminate.
  - intros [= <-]. split; [reflexivity|].
    rewrite (do_call_log _ _ _ _ E3), (do_call_log _ _ _ _ E2),
      (do_call_log _ _ _ _ E1).
    now rewrite <- !app_assoc.
Qed.

(** One entry, whatever becomes of it: no commit is made, and leaving
    [add] there is not a return of nil. *)
Lemma add_entry_no_commit (ch : commit_helper.commitHelper)
    (b : commit_helper.commitBody) (fx fx' : commit_helper.effects)
    (r : unit + commit_helper.add_result) :
  commit_helper.add_entry ch b fx = (fx', r) ->
  commit_helper.no_commit (snd fx) = true ->
  commit_helper.no_commit (snd fx') = true /\ r <> inr (commit_helper.Returns None).
Proof.
  unfold commit_helper.add_entry. intros Hadd Hlog.
  destruct (negb _).
  { injection Hadd as <- <-. split; [exact Hlog | discriminate]. }
  destruct (commit_helper.do_call fx _) as [fx1 e1] eqn:E1.
  apply do_call_log in E1.
  assert (H1 : commit_helper.no_commit (snd fx1) = true)
    by (rewrite E1; now apply no_commit_snoc).
  destruct e1 as [e1|].
  { injection Hadd as <- <-. split; [exact H1 | discriminate]. }
  destruct (commit_helper.do_call fx1 _) as [fx2 e2] eqn:E2.
  apply do_call_log in E2.
  assert (H2 : commit_helper.no_commit (snd fx2) = true)
    by (rewrite E2; now apply no_commit_snoc).
  destruct e2 as [e2|].
  { injection Hadd as <- <-. split; [exact H2 | discriminate]. }
  destruct (commit_helper.slice_from _ _) as [sub|].
  2:{ injection Hadd as <- <-. split; [exact H2 | discriminate]. }
  destruct (commit_helper.do_call fx2 _) as [fx3 e3] eqn:E3.
  apply do_call_log in E3.
  assert (H3 : commit_helper.no_commit (snd fx3) = true)
    by (rewrite E3; now apply no_commit_snoc).
  destruct e3 as [e3|].
  2:{ injection Hadd as <- <-. split; [exact H3 | discriminate]. }
  destruct (commit_helper.do_call fx3 _) as [fx4 e4] eqn:E4.
  apply do_call_log in E4.
  assert (H4 : commit_helper.no_commit (snd fx4) = true)
    by (rewrite E4; now apply no_commit_snoc).
  destruct e4; injection Hadd as <- <-; split; try exact H4; discriminate.
Qed.

Lemma add_loop_no_commit (ch : commit_helper.commitHelper)
    (entries : list commit_helper.commitBody) :
  forall (fx fx' : commit_helper.effects)
         (r : unit + commit_helper.add_result),
    commit_helper.add_loop ch entries fx = (fx', r) ->
    commit_helper.no_commit (snd fx) = true ->
    commit_helper.no_commit (snd fx') = true /\ r <> inr (commit_helper.Returns None).
Proof.
  induction entries as [|b entries IH]; intros fx fx' r Hloop Hlog.
  - injection Hloop as <- <-. split; [exact Hlog | discriminate].
  - simpl in Hloop.
    destruct (commit_helper.add_entry ch b fx) as [fx1 [u|r1]] eqn:E.
    + destruct (add_entry_no_commit _ _ _ _ _ E Hlog) as [H1 _].
      eapply IH; eassumption.
    + injection Hloop as <- <-.
      eapply add_entry_no_commit; eassumption.
Qed.

(** The loop, gone through a list of entries without leaving [add]. *)
Lemma add_loop_continues (ch : commit_helper.commitHelper)
    (entries : list commit_helper.commitBody) :
  forall (fx fx' : commit_helper.effects) (u : unit),
    commit_helper.add_loop ch entries fx = (fx', inl u) ->
    forallb (commit_helper.within_root ch) entries = true /\
    snd fx' = snd fx ++ flat_map (commit_helper.staging ch) entries.
Proof.
  induction entries as [|b entries IH]; intros fx fx' u Hloop.
  - injection Hloop as <-. simpl. now rewrite app_nil_r.
  - simpl in Hloop.
    destruct (commit_helper.add_entry ch b fx) as [fx1 [u1|r1]] eqn:E;
      [|discriminate].
    destruct (add_entry_continues _ _ _ _ _ E) as [Hb Hlog1].
    destruct (IH _ _ _ Hloop) as [Hrest Hlog].
    split; [simpl; now rewrite Hb, Hrest|].
    rewrite Hlog, Hlog1. simpl. now rewrite <- !app_assoc.
Qed.

Lemma add_loop_app (ch : commit_helper.commitHelper)
    (l1 l2 : list commit_helper.commitBody) :
  forall fx : commit_helper.effects,
    commit_helper.add_loop ch (l1 ++ l2) fx
    = match commit_helper.add_loop ch l1 fx with
      | (fx', inl _) => commit_helper.add_loop ch l2 fx'
      | (fx', inr r) => (fx', inr r)
      end.
Proof.
  induction l1 as [|b l1 IH]; intros fx; [reflexivity|].
  simpl. destruct (commit_helper.add_entry ch b fx) as [fx1 [u|r]];
    [apply IH | reflexivity].
Qed.

(** A list with an entry outside the root splits at the first one. *)
Lemma first_outside (ch : commit_helper.commitHelper)
    (entries : list commit_helper.commitBody) :
  (exists b, In b entries /\ commit_helper.within_root ch b = false) ->
  exists pre b post,
    entries = pre ++ b :: post /\
    forallb (commit_helper.within_root ch) pre = true /\
    commit_helper.within_root ch b = false.
Proof.
  induction entries as [|a entries IH]; intros (b & Hin & Hb);
    [destruct Hin|].
  destruct (commit_helper.within_root ch a) eqn:Ha.
  - destruct Hin as [->|Hin]; [congruence|].
    destruct IH as (pre & b' & post & -> & Hpre & Hb'); [now exists b|].
    exists (a :: pre), b', post. simpl. now rewrite Ha.
  - now exists [], a, entries.
Qed.







End AddFacts.



(** ** Concurrent callers *)

Section InterleavingFacts.
Context `{Service} `{!Transport}.

Lemma count_replicate_Idle (p : thread -> bool) (n : nat) :
  p Idle = false -> count p (replicate n Idle) = O.
Proof. intros Hp. induction n as [|n IH]; simpl; [|rewrite Hp]; auto. Qed.

(** Replacing one element moves the count by that element's share. *)
Lemma count_insert (p : thread -> bool) (l : list thread) :
  forall (i : nat) (x y : thread),
    l !! i = Some x ->
    (count p (<[i := y]> l) + (if p x then 1 else 0)
     = count p l + (if p y then 1 else 0))%nat.
Proof.
  induction l as [|a l IH]; intros i x y Hi; [discriminate Hi|].
  destruct i as [|i]; simpl in *.
  - injection Hi as ->. lia.
  - specialize (IH i x y Hi). lia.
Qed.

Lemma count_one (p : thread -> bool) (l : list thread) :
  forall (i : nat) (x : thread),
    l !! i = Some x -> p x = true -> (1 <= count p l)%nat.
Proof.
  induction l as [|a l IH]; intros i x Hi Hx; [discriminate Hi|].
  destruct i as [|i]; simpl in *.
  - injection Hi as ->. rewrite Hx. lia.
  - specialize (IH i x Hi Hx). lia.
Qed.

Lemma count_two (p : thread -> bool) (l : list thread) :
  forall (i j : nat) (x y : thread),
    l !! i = Some x -> l !! j = Some y -> i <> j ->
    p x = true -> p y = true -> (2 <= count p l)%nat.
Proof.
  induction l as [|a l IH]; intros i j x y Hi Hj Hne Hx Hy; [discriminate Hi|].
  destruct i as [|i], j as [|j]; simpl in *; [congruence | | |].
  - injection Hi as ->. rewrite Hx. pose proof (count_one p l j y Hj Hy). lia.
  - injection Hj as ->. rewrite Hy. pose proof (count_one p l i x Hi Hx). lia.
  - assert (i <> j) by congruence.
    pose proof (IH i j x y Hi Hj ltac:(assumption) Hx Hy). lia.
Qed.

Lemma Lock_Some (m m' : RWMutex) :
  Lock m = Some m' ->
  writer m = false /\ readers m = O /\ m' = mkRWMutex true O.
Proof.
  unfold Lock. destruct (writer m); [discriminate|].
  destruct (readers m); [|discriminate]. now intros [= <-].
Qed.

Lemma RLock_Some (m m' : RWMutex) :
  RLock m = Some m' ->
  writer m = false /\ m' = mkRWMutex false (S (readers m)).
Proof. unfold RLock. destruct (writer m); [discriminate|]. now intros [= <-]. Qed.

Lemma initial_invariant (d : Dynamic) (n : nat) : lock_invariant (initial d n).
Proof.
  unfold lock_invariant, initial. simpl.
  rewrite !count_replicate_Idle by reflexivity. now repeat split.
Qed.

(** Every step keeps the lock's record in agreement with the calls. *)
Lemma system_step_invariant (c c' : system) (ia : nat * action) :
  system_step c ia = Some c' -> lock_invariant c -> lock_invariant c'.
Proof.
  unfold system_step. destruct ia as [i a]. simpl.
  destruct (threads c !! i) as [th|] eqn:Hi; [|discriminate].
  destruct (thread_step a (shared c) th) as [[d th']|] eqn:Hstep;
    [|discriminate].
  intros [= <-]. intros (Hw & Hr & Hwr).
  pose proof (count_insert refreshing _ _ _ th' Hi) as Cw.
  pose proof (count_insert reading _ _ _ th' Hi) as Cr.
  pose proof (fun H => count_one refreshing _ _ _ Hi H) as Ow.
  pose proof (fun H => count_one reading _ _ _ Hi H) as Or.
  unfold lock_invariant. simpl.
  destruct th as [|pc|pc], a as [| |net]; simpl in Hstep; try discriminate.
  - injection Hstep as <- <-. simpl in *.
    split; [lia|]. split; [lia|exact Hwr].
  - injection Hstep as <- <-. simpl in *.
    split; [lia|]. split; [lia|exact Hwr].
  - destruct pc as [| |patterns|patterns nd|nd|ret]; simpl in Hstep.
    + destruct (Lock (mux (shared c))) as [m|] eqn:HL; [|discriminate].
      apply Lock_Some in HL as (Hwf & Hrf & ->).
      injection Hstep as <- <-. simpl in *. rewrite Hwf in Hw.
      split; [lia|]. split; [lia|reflexivity].
    + destruct (fetch net (shared c)); injection Hstep as <- <-; simpl in *;
        (split; [lia|]; split; [lia|exact Hwr]).
    + destruct (patternsToDetectors patterns) as [nd [err|]];
        injection Hstep as <- <-; simpl in *;
        (split; [lia|]; split; [lia|exact Hwr]).
    + destruct (store_Set (store (shared c)) patterns) as [s [err|]];
        injection Hstep as <- <-; simpl in *;
        (split; [lia|]; split; [lia|exact Hwr]).
    + injection Hstep as <- <-. simpl in *.
      split; [lia|]. split; [lia|exact Hwr].
    + injection Hstep as <- <-. simpl in *.
      specialize (Ow eq_refl).
      destruct (writer (mux (shared c))); [|lia].
      split; [lia|]. split; [lia|discriminate].
  - destruct pc as [| |r]; simpl in Hstep.
    + destruct (RLock (mux (shared c))) as [m|] eqn:HL; [|discriminate].
      apply RLock_Some in HL as (Hwf & ->).
      injection Hstep as <- <-. simpl in *. rewrite Hwf in Hw.
      split; [lia|]. split; [lia|discriminate].
    + injection Hstep as <- <-. simpl in *.
      split; [lia|]. split; [lia|exact Hwr].
    + injection Hstep as <- <-. simpl in *.
      specialize (Or eq_refl).
      split; [lia|]. split; [lia|].
      intros Hwt. specialize (Hwr Hwt). lia.
Qed.

Lemma run_schedule_invariant (schedule : list (nat * action)) :
  forall c c' : system,
    run_schedule c schedule = Some c' -> lock_invariant c -> lock_invariant c'.
Proof.
  induction schedule as [|ia schedule IH]; intros c c' Hrun Hinv.
  - now injection Hrun as <-.
  - simpl in Hrun. destruct (system_step c ia) as [c1|] eqn:Hs; [|discriminate].
    eapply IH; [exact Hrun|]. eapply system_step_invariant; eassumption.
Qed.

Lemma reachable_invariant (c : system) : reachable c -> lock_invariant c.
Proof.
  intros (d & n & schedule & Hrun).
  eapply run_schedule_invariant; [exact Hrun | apply initial_invariant].
Qed.

(** C9.  In every state that goroutines calling [updateDetectors] and
    [ProvideDetectors] on one provider can reach: a call of
    [updateDetectors] that is anywhere from the fetch to the deferred
    [Unlock] -- fetch, conversion, [store.Set] and the assignment of the
    detectors included -- holds the lock exclusively; no two calls are
    there at once; and no call of [ProvideDetectors] is between its
    [RLock] and [RUnlock] while one is, so none reads the detectors after
    a cycle has persisted the new rules and before it has swapped the
    snapshot. *)
Theorem updateDetectors_excludes_readers_and_writers (c : system) :
  reachable c ->
  (forall i th,
      threads c !! i = Some th -> refreshing th = true ->
      writer (mux (shared c)) = true /\ readers (mux (shared c)) = O) /\
  (forall i j thi thj,
      threads c !! i = Some thi -> threads c !! j = Some thj ->
      refreshing thi = true -> refreshing thj = true -> i = j) /\
  (forall i j thi thj,
      threads c !! i = Some thi -> threads c !! j = Some thj ->
      reading thi = true -> refreshing thj = false) /\
  (forall i j thi thj,
      threads c !! i = Some thi -> threads c !! j = Some thj ->
      reading thi = true -> persisted_not_swapped thj = false).
Proof.
  intros Hreach. destruct (reachable_invariant c Hreach) as (Hw & Hr & Hwr).
  assert (Hheld : forall i th,
             threads c !! i = Some th -> refreshing th = true ->
             writer (mux (shared c)) = true /\ readers (mux (shared c)) = O).
  { intros i th Hi Hth. pose proof (count_one refreshing _ _ _ Hi Hth) as Hc.
    destruct (writer (mux (shared c))); [|lia]. split; [reflexivity|].
    now apply Hwr. }
  assert (Hread : forall i j thi thj,
             threads c !! i = Some thi -> threads c !! j = Some thj ->
             reading thi = true -> refreshing thj = false).
  { intros i j thi thj Hi Hj Hri.
    destruct (refreshing thj) eqn:Hrj; [|reflexivity].
    destruct (Hheld j thj Hj Hrj) as [_ Hzero].
    pose proof (count_one reading _ _ _ Hi Hri). lia. }
  split; [exact Hheld|]. split; [|split; [exact Hread|]].
  - intros i j thi thj Hi Hj Hri Hrj.
    destruct (Nat.eq_dec i j) as [Heq|Hne]; [exact Heq|].
    pose proof (count_two refreshing _ _ _ _ _ Hi Hj Hne Hri Hrj).
    destruct (writer (mux (shared c))); lia.
  - intros i j thi thj Hi Hj Hri.
    specialize (Hread i j thi thj Hi Hj Hri).
    destruct thj as [|[]|]; simpl in *; congruence.
Qed.

End InterleavingFacts.

Lemma updateDetectors_excludes_readers_and_writers_witness :
  let d := Sample.provider (Sample.emptyStore 0) in
  let net := Sample.serving [Sample.p_contains] in
  let c : @system Sample.compiler Sample.service :=
    mkSystem (set_mux (mkRWMutex true O) d)
             [@InUpdate Sample.compiler
                (@AtConvert Sample.compiler [Sample.p_contains]);
              InProvide AtRLock; Idle] in
  @reachable Sample.compiler Sample.service Sample.transport c /\
  writer (mux (shared c)) = true /\
  @system_step Sample.compiler Sample.service Sample.transport c
    (1%nat, Advance net) = None.
Proof.
  intros d net c.
  assert (Hreach : @reachable Sample.compiler Sample.service Sample.transport c).
  { exists d, 3%nat,
      [(0%nat, CallUpdate); (1%nat, CallProvide); (0%nat, Advance net);
       (0%nat, Advance net)].
    reflexivity. }
  split; [exact Hreach|]. split; [|reflexivity].
  destruct (@updateDetectors_excludes_readers_and_writers
              Sample.compiler Sample.service Sample.transport c Hreach)
    as (Hheld & _).
  apply (Hheld 0%nat (@InUpdate Sample.compiler
                        (@AtConvert Sample.compiler [Sample.p_contains])));
    reflexivity.
Defined.

(** ** Sample runs *)

(** Two malformed records in a batch: both errors are joined, one join
    inside the other, and no detector comes back. *)
Example patternsToDetectors_joins_both :
  @patternsToDetectors Sample.compiler
    [Sample.p_contains; Sample.p_broken; Sample.p_future; Sample.p_broken]
  = (None,
     Some (joinError
             [joinError
                [wrapError "regexp compile: " (errorString "missing closing )")];
              wrapError "regexp compile: " (errorString "missing closing )")])).
Proof. reflexivity. Qed.

(** A cycle that goes through: the store takes the fetched rules, the
    detectors are those of the records of a known kind. *)
Example updateDetectors_goes_through :
  exists s,
    @updateDetectors Sample.compiler Sample.service Sample.transport
      (Sample.serving [Sample.p_regex; Sample.p_future])
      (Sample.provider (Sample.emptyStore 5))
    = Some (@mkDynamic Sample.compiler Sample.service true
              "https://grafana.com" s
              (Some [Some (Sample.RegexDetector "from 'angular'")])
              freshMutex, None) /\
    Sample.ms_present s = true /\ Sample.ms_lastUpdated s = 5.
Proof. eexists. split; [reflexivity|]. split; reflexivity. Qed.

(** Cancellation after one failed cycle: [Run] returns [ctx.Err()]. *)
Example Run_returns_on_cancellation :
  let canceled := errorString "context canceled" in
  let d := Sample.provider (Sample.storeUpdatedAt 0 0) in
  @Run Sample.compiler Sample.service Sample.transport time.Buffered
    (mkContext (Some (time.Hour + 30, canceled))) time.Hour time.Hour d
    [Tick time.Hour Sample.unreachable (time.Hour + 10);
     Done (time.Hour + 30)]
  = Returned d (Some canceled).
Proof. reflexivity. Qed.

(** A first wait of ten nanoseconds and a first cycle of twenty: the
    ticker, still at the short period, has sent a tick during the cycle.
    On a buffered channel that tick outlives the [Reset] and the second
    cycle fires at once; on a synchronous channel it does not. *)
Example Run_second_firing_after_short_first_wait :
  let d := Sample.provider (Sample.storeUpdatedAt (10 - time.Hour) 0) in
  let events := [Tick 10 Sample.unreachable 30;
                 Tick 30 Sample.unreachable 31] in
  (exists st,
     @Run Sample.compiler Sample.service Sample.transport time.Buffered
       (mkContext None) time.Hour 0 d events = Running st /\
     cycles st = 2%nat /\
     time.next_fire (ticker st) = 31 + time.Hour) /\
  @Run Sample.compiler Sample.service Sample.transport time.Synchronous
    (mkContext None) time.Hour 0 d events = NotABehaviour.
Proof. split; [eexists; split; [reflexivity|split; reflexivity]|reflexivity]. Qed.

(** An entry within the root, then one outside it: the first file is
    written and added, nothing is committed. *)
Example add_stops_at_outside_entry :
  @commit_helper.add Sample.worktree Sample.helper
    (commit_helper.mkCommitOptions
       [Sample.inside; Sample.outside; Sample.inside] 0 7 "export")
    Sample.emptyDisk
  = ((Sample.mkDisk [("/repo/org_1/dash/a.json"%string, Sample.bytes_hi)]
                    ["org_1/dash/a.json"%string] [] [],
      [commit_helper.MkdirAll "/repo/org_1/dash";
       commit_helper.WriteFile "/repo/org_1/dash/a.json" Sample.bytes_hi;
       commit_helper.WorkAdd "org_1/dash/a.json"]),
     commit_helper.Returns
       (Some (fmt.Errorf "invalid path, must be within the root folder"))).
Proof. reflexivity. Qed.

(** A write that fails on an entry before the one outside the root: [add]
    returns the write's error. *)
Example add_stops_at_failed_write :
  snd (@commit_helper.add Sample.worktree Sample.helper
         (commit_helper.mkCommitOptions [Sample.inside; Sample.outside] 0 7
            "export")
         (Sample.mkDisk [] [] [] ["/repo/org_1/dash/a.json"%string]))
  = commit_helper.Returns (Some (errorString "permission denied")).
Proof. reflexivity. Qed.

(** All entries within the root: the commit is made, by the default
    author when the user is unknown. *)
Example add_commits :
  snd (fst (@commit_helper.add Sample.worktree Sample.helper
              (commit_helper.mkCommitOptions [Sample.inside]
                 (1700000000 * time.Second) 7 "export")
              Sample.emptyDisk))
  = [commit_helper.MkdirAll "/repo/org_1/dash";
     commit_helper.WriteFile "/repo/org_1/dash/a.json" Sample.bytes_hi;
     commit_helper.WorkAdd "org_1/dash/a.json";
     commit_helper.WorkCommit "export"
       (commit_helper.mkSignature "admin" "admin@unknown.org"
          (1700000000 * time.Second))].
Proof. reflexivity. Qed.

(* ===================================================================== *)
(** * Further properties *)
(* ===================================================================== *)

(** ** Batch conversion, beyond one unknown record *)

Lemma join_all_keeps_known (errs : list error) :
  forall (acc : option error) (fe : error),
    Forall (fun e => Is_errUnknownPatternType e = false) errs ->
    match acc with
    | Some a => Is_errUnknownPatternType a = false
    | None => True
    end ->
    join_all errs acc = Some fe ->
    Is_errUnknownPatternType fe = false.
Proof.
  induction errs as [|e errs IH]; intros acc fe Hall Hacc Hj.
  - simpl in Hj. subst acc. exact Hacc.
  - inversion Hall as [|? ? He Hrest]; subst. simpl in Hj.
    apply (IH _ fe Hrest) in Hj; [exact Hj|].
    destruct acc as [a|]; simpl; now rewrite ?Hacc, He.
Qed.

Section ConversionMore.
Context `{Compiler}.

Lemma fatalErrors_known (ps : GCOMPatterns) :
  Forall (fun e => Is_errUnknownPatternType e = false) (fatalErrors ps).
Proof.
  induction ps as [|p ps IH]; [constructor|].
  rewrite fatalErrors_cons. unfold fatal.
  destruct (snd (angularDetector p)) as [e|]; [|exact IH].
  destruct (Is_errUnknownPatternType e) eqn:He; [exact IH|].
  now constructor.
Qed.

Lemma fatalErrors_origin (ps : GCOMPatterns) (e : error) :
  In e (fatalErrors ps) ->
  exists p ad, In p ps /\ angularDetector p = (ad, Some e) /\
               Is_errUnknownPatternType e = false.
Proof.
  induction ps as [|p ps IH]; [intros []|].
  rewrite fatalErrors_cons. unfold fatal.
  destruct (angularDetector p) as [ad [e'|]] eqn:Hc; simpl.
  - destruct (Is_errUnknownPatternType e') eqn:He.
    + intros Hin. destruct (IH Hin) as (q & adq & Hq & Hcq & Hu).
      exists q, adq. split; [now right|]. now split.
    + intros [->|Hin].
      * exists p, ad. split; [now left|]. now split.
      * destruct (IH Hin) as (q & adq & Hq & Hcq & Hu).
        exists q, adq. split; [now right|]. now split.
  - intros Hin. destruct (IH Hin) as (q & adq & Hq & Hcq & Hu).
    exists q, adq. split; [now right|]. now split.
Qed.

Lemma fatalErrors_none (ps : GCOMPatterns) :
  (forall p ad e, In p ps -> angularDetector p = (ad, Some e) ->
                  Is_errUnknownPatternType e = true) ->
  fatalErrors ps = [].
Proof.
  intros Hall. destruct (fatalErrors ps) as [|e errs] eqn:HE; [reflexivity|].
  destruct (fatalErrors_origin ps e) as (p & ad & Hp & Hc & Hu).
  - rewrite HE. now left.
  - rewrite (Hall p ad e Hp Hc) in Hu. discriminate.
Qed.

Lemma kept_and_skipped (ps : GCOMPatterns) :
  (length (kept ps) + length (List.filter skipped ps) = length ps)%nat.
Proof.
  induction ps as [|p ps IH]; [reflexivity|].
  rewrite kept_cons. simpl. destruct (skipped p); simpl; lia.
Qed.

(** X1.  When every record that fails to compile fails with the unknown-type
    sentinel -- however many there are, none included --
    [patternsToDetectors] returns a nil error and a non-nil slice holding
    the detectors of the other records, in the order of the batch: as many
    as there are records, less the skipped ones. *)
Theorem patternsToDetectors_without_failure (ps : GCOMPatterns) :
  (forall p ad e, In p ps -> angularDetector p = (ad, Some e) ->
                  Is_errUnknownPatternType e = true) ->
  patternsToDetectors ps
  = (Some (map (fun p => fst (angularDetector p))
               (List.filter (fun p => negb (skipped p)) ps)), None) /\
  (len (fst (patternsToDetectors ps)) + length (List.filter skipped ps)
   = length ps)%nat.
Proof.
  intros Hall.
  assert (HR : patternsToDetectors ps = (Some (kept ps), None)).
  { unfold patternsToDetectors.
    rewrite patternsToDetectors_loop_spec, (fatalErrors_none ps Hall).
    reflexivity. }
  split; [exact HR|]. rewrite HR. simpl. apply kept_and_skipped.
Qed.

(** X2.  An error returned by [patternsToDetectors] comes with the nil slice,
    stems from a record whose own error is not the unknown-type sentinel,
    and is itself not recognised by [errors.Is] as that sentinel. *)
Theorem patternsToDetectors_error_shape (ps : GCOMPatterns)
    (ds : slice AngularDetector) (fe : error) :
  patternsToDetectors ps = (ds, Some fe) ->
  ds = None /\
  Is_errUnknownPatternType fe = false /\
  exists p ad e, In p ps /\ angularDetector p = (ad, Some e) /\
                 Is_errUnknownPatternType e = false /\ reaches fe e.
Proof.
  unfold patternsToDetectors. rewrite patternsToDetectors_loop_spec.
  destruct (join_all (fatalErrors ps) None) as [fe'|] eqn:Hj;
    intros [= <- <-].
  split; [reflexivity|]. split.
  - apply (join_all_keeps_known (fatalErrors ps) None);
      [apply fatalErrors_known | exact I | exact Hj].
  - destruct (fatalErrors ps) as [|e errs] eqn:HE; [discriminate Hj|].
    destruct (fatalErrors_origin ps e) as (p & ad & Hp & Hc & Hu);
      [rewrite HE; now left|].
    exists p, ad, e. repeat split; try assumption.
    apply (join_all_reaches (e :: errs) None); [exact Hj | now left].
Qed.

End ConversionMore.

Lemma patternsToDetectors_without_failure_witness :
  @patternsToDetectors Sample.compiler
    [Sample.p_future; Sample.p_contains; Sample.p_future; Sample.p_regex]
  = (Some [Some (Sample.ContainsBytesDetector "ng-controller");
           Some (Sample.RegexDetector "from 'angular'")], None).
Proof.
  apply (@patternsToDetectors_without_failure Sample.compiler
           [Sample.p_future; Sample.p_contains; Sample.p_future;
            Sample.p_regex]).
  intros p ad e Hin Hc. simpl in Hin.
  destruct Hin as [<-|[<-|[<-|[<-|[]]]]]; vm_compute in Hc;
    first [discriminate Hc | injection Hc as _ <-; reflexivity].
Defined.

Lemma patternsToDetectors_error_shape_witness :
  Is_errUnknownPatternType
    (joinError [wrapError "regexp compile: " (errorString "missing closing )")])
  = false.
Proof.
  apply (@patternsToDetectors_error_shape Sample.compiler
           [Sample.p_future; Sample.p_broken] None).
  reflexivity.
Defined.

(** ** Refresh and restore, path by path *)

Section ProviderMore.
Context `{Service} `{!Transport}.

Lemma fetch_error_tagged (net : Network) (d : Dynamic) (e : error) :
  fetch net d = inr e ->
  exists tag cause,
    e = wrapError tag cause /\
    In tag ["url joinpath: "; "new request with context: "; "http do: ";
            "json decode: "]%string.
Proof.
  unfold fetch.
  destruct (url_JoinPath _ _) as [reqURL|e1].
  2:{ intros [= <-]. eexists _, _. split; [reflexivity|]. simpl. tauto. }
  destruct (http_NewRequestWithContext reqURL) as [req|e2].
  2:{ intros [= <-]. eexists _, _. split; [reflexivity|]. simpl. tauto. }
  destruct (net req) as [resp|e3].
  2:{ intros [= <-]. eexists _, _. split; [reflexivity|]. simpl. tauto. }
  destruct (json_Decode resp) as [out|e4]; [discriminate|].
  intros [= <-]. eexists _, _. split; [reflexivity|]. simpl. tauto.
Qed.

(** X3.  A refresh cycle whose fetch fails returns the error of the failing
    stage, tagged by [fetch] with that stage and wrapped once more as
    "fetch: ..."; the provider -- store, detectors, lock -- is as before
    the call. *)
Theorem updateDetectors_fetch_failure (net : Network) (d : Dynamic)
    (e : error) :
  mux d = freshMutex ->
  fetch net d = inr e ->
  updateDetectors net d = Some (d, Some (fmt.Errorf_w "fetch: " e)) /\
  exists tag cause,
    e = wrapError tag cause /\
    In tag ["url joinpath: "; "new request with context: "; "http do: ";
            "json decode: "]%string.
Proof.
  intros Hm Hf. split; [|now apply (fetch_error_tagged net d)].
  unfold updateDetectors. rewrite Hm, Lock_fresh.
  change (fetch net (set_mux (mkRWMutex true O) d)) with (fetch net d).
  rewrite Hf. now rewrite unlocked_after_Lock.
Qed.

(** X4.  A refresh cycle whose fetched rules do not convert returns the
    conversion's error wrapped as "patterns convert to detectors: ...";
    [store.Set] is not reached, and the provider is as before the call. *)
Theorem updateDetectors_conversion_failure (net : Network) (d : Dynamic)
    (patterns : GCOMPatterns) (ds : slice AngularDetector) (e : error) :
  mux d = freshMutex ->
  fetch net d = inl patterns ->
  patternsToDetectors patterns = (ds, Some e) ->
  updateDetectors net d
  = Some (d, Some (fmt.Errorf_w "patterns convert to detectors: " e)).
Proof.
  intros Hm Hf Hc. unfold updateDetectors. rewrite Hm, Lock_fresh.
  change (fetch net (set_mux (mkRWMutex true O) d)) with (fetch net d).
  rewrite Hf, Hc. now rewrite unlocked_after_Lock.
Qed.

Lemma updateDetectors_success (net : Network) (d : Dynamic)
    (patterns : GCOMPatterns) (nd : slice AngularDetector) (s : Store) :
  mux d = freshMutex ->
  fetch net d = inl patterns ->
  patternsToDetectors patterns = (nd, None) ->
  store_Set (store d) patterns = (s, None) ->
  updateDetectors net d
  = Some (mkDynamic (features d) (baseURL d) s nd freshMutex, None).
Proof.
  intros Hm Hf Hc Hs. unfold updateDetectors. rewrite Hm, Lock_fresh.
  change (fetch net (set_mux (mkRWMutex true O) d)) with (fetch net d).
  rewrite Hf, Hc. cbn [store set_mux]. rewrite Hs. reflexivity.
Qed.

(** X5.  After a refresh cycle that went through, a read returns the
    conversion of the rules that were fetched, and the store is the one
    [store.Set] left; flag and base URL are untouched and the lock is
    free again. *)
Theorem ProvideDetectors_after_updateDetectors (net : Network) (d : Dynamic)
    (patterns : GCOMPatterns) (nd : slice AngularDetector) (s : Store) :
  mux d = freshMutex ->
  fetch net d = inl patterns ->
  patternsToDetectors patterns = (nd, None) ->
  store_Set (store d) patterns = (s, None) ->
  exists d',
    updateDetectors net d = Some (d', None) /\
    ProvideDetectors d' = Some (d', nd) /\
    store d' = s /\ features d' = features d /\ baseURL d' = baseURL d /\
    mux d' = freshMutex.
Proof.
  intros Hm Hf Hc Hs. eexists. split.
  - now apply (updateDetectors_success net d patterns nd s).
  - now repeat split.
Qed.

(** X6.  Whatever the store holds, the restore returns with the lock free and
    with store, flag and base URL untouched.  When it returns an error
    the detectors are untouched too; when it returns nil they are
    untouched, or they are the conversion of the rules decoded from the
    value the store reported present. *)
Theorem setDetectorsFromCache_outcomes (d : Dynamic) :
  mux d = freshMutex ->
  exists d' r,
    setDetectorsFromCache d = Some (d', r) /\
    mux d' = freshMutex /\ store d' = store d /\
    features d' = features d /\ baseURL d' = baseURL d /\
    (r <> None -> detectors d' = detectors d) /\
    (r = None ->
     detectors d' = detectors d \/
     exists raw patterns,
       store_Get (store d) = (raw, true, None) /\
       json_Unmarshal raw = inl patterns /\
       patternsToDetectors patterns = (detectors d', None)).
Proof.
  intros Hm. unfold setDetectorsFromCache. rewrite Hm, Lock_fresh.
  cbn [store set_mux].
  destruct (store_Get (store d)) as [[raw ok] err] eqn:Hg.
  destruct ok; simpl negb; cbv iota.
  2:{ eexists _, _. split; [reflexivity|]. simpl. repeat split; auto. }
  destruct err as [err|].
  { eexists _, _. split; [reflexivity|]. simpl. repeat split; auto;
    discriminate. }
  destruct (json_Unmarshal raw) as [patterns|err] eqn:Hu.
  2:{ eexists _, _. split; [reflexivity|]. simpl. repeat split; auto;
      discriminate. }
  destruct (patternsToDetectors patterns) as [cd [err|]] eqn:Hc.
  { eexists _, _. split; [reflexivity|]. simpl. repeat split; auto;
    discriminate. }
  eexists _, _. split; [reflexivity|]. simpl. repeat split; auto.
  - intros Hn. now destruct Hn.
  - intros _. right. now exists raw, patterns.
Qed.

(** X7.  [ProvideDynamic] always yields a provider: with the flag, URL and
    store it was given, the lock free, and detectors that are nil -- always
    so when the service is disabled, the store not being consulted -- or
    the conversion of the rules the store holds. *)
Theorem ProvideDynamic_result (url : string) (s : Store) (enabled : bool) :
  let d := ProvideDynamic url s enabled in
  features d = enabled /\ baseURL d = url /\ store d = s /\
  mux d = freshMutex /\
  (enabled = false -> detectors d = None) /\
  (detectors d = None \/
   exists raw patterns,
     store_Get s = (raw, true, None) /\
     json_Unmarshal raw = inl patterns /\
     patternsToDetectors patterns = (detectors d, None)).
Proof.
  unfold ProvideDynamic, IsDisabled. simpl features.
  destruct enabled; simpl negb; cbv iota.
  2:{ simpl. repeat split; auto. }
  unfold setDetectorsFromCache. simpl mux. rewrite Lock_fresh.
  cbn [store set_mux].
  destruct (store_Get s) as [[raw ok] err] eqn:Hg.
  destruct ok; simpl negb; cbv iota.
  2:{ simpl. repeat split; auto; discriminate. }
  destruct err as [err|].
  { simpl. repeat split; auto; discriminate. }
  destruct (json_Unmarshal raw) as [patterns|err] eqn:Hu.
  2:{ simpl. repeat split; auto; discriminate. }
  destruct (patternsToDetectors patterns) as [cd [err|]] eqn:Hc.
  { simpl. repeat split; auto; discriminate. }
  simpl. repeat split; auto; try discriminate.
  right. now exists raw, patterns.
Qed.

(** X8.  Rules persisted by a refresh cycle come back at the next start: when
    the store hands back, present and decodable to the same rules, what
    the cycle has set, a provider built over that store holds the
    detectors the cycle left in memory. *)
Theorem restore_after_refresh (net : Network) (d : Dynamic) (url : string)
    (patterns : GCOMPatterns) (nd : slice AngularDetector) (s : Store)
    (raw : string) :
  mux d = freshMutex ->
  fetch net d = inl patterns ->
  patternsToDetectors patterns = (nd, None) ->
  store_Set (store d) patterns = (s, None) ->
  store_Get s = (raw, true, None) ->
  json_Unmarshal raw = inl patterns ->
  exists d',
    updateDetectors net d = Some (d', None) /\
    detectors (ProvideDynamic url (store d') true) = detectors d'.
Proof.
  intros Hm Hf Hc Hs Hg Hu. eexists. split.
  - now apply (updateDetectors_success net d patterns nd s).
  - simpl. unfold ProvideDynamic, IsDisabled. simpl.
    unfold setDetectorsFromCache. simpl mux. rewrite Lock_fresh.
    cbn [store set_mux]. rewrite Hg. simpl negb. cbv iota.
    rewrite Hu, Hc. reflexivity.
Qed.

(** X9.  The lock is not re-entrant: a caller that takes it and then calls
    [setDetectorsFromCache], [updateDetectors] or [ProvideDetectors] on
    the same provider waits for itself; none of the three returns. *)
Theorem calls_wait_for_the_lock_holder (net : Network) (d : Dynamic)
    (m : RWMutex) :
  Lock (mux d) = Some m ->
  setDetectorsFromCache (set_mux m d) = None /\
  updateDetectors net (set_mux m d) = None /\
  ProvideDetectors (set_mux m d) = None.
Proof.
  intros HL. apply Lock_Some in HL as (_ & _ & ->).
  now repeat split.
Qed.

End ProviderMore.

Lemma updateDetectors_fetch_failure_witness :
  let d := Sample.provider (Sample.storeUpdatedAt 3 5) in
  @updateDetectors Sample.compiler Sample.service Sample.transport
    Sample.unreachable d
  = Some (d, Some (fmt.Errorf_w "fetch: "
                     (wrapError "http do: "
                        (errorString "dial tcp: connection refused")))).
Proof.
  intros d.
  apply (@updateDetectors_fetch_failure
           Sample.compiler Sample.service Sample.transport
           Sample.unreachable d); reflexivity.
Defined.

Lemma updateDetectors_conversion_failure_witness :
  let d := Sample.provider (Sample.storeUpdatedAt 3 5) in
  exists e,
    @updateDetectors Sample.compiler Sample.service Sample.transport
      (Sample.serving [Sample.p_contains; Sample.p_broken]) d
    = Some (d, Some (fmt.Errorf_w "patterns convert to detectors: " e)).
Proof.
  intros d. eexists.
  apply (@updateDetectors_conversion_failure
           Sample.compiler Sample.service Sample.transport
           (Sample.serving [Sample.p_contains; Sample.p_broken]) d
           [Sample.p_contains; Sample.p_broken] None); reflexivity.
Defined.

Lemma ProvideDetectors_after_updateDetectors_witness :
  let d := Sample.provider (Sample.emptyStore 5) in
  let net := Sample.serving [Sample.p_regex; Sample.p_future] in
  exists d',
    @updateDetectors Sample.compiler Sample.service Sample.transport net d
    = Some (d', None) /\
    @ProvideDetectors Sample.compiler Sample.service d'
    = Some (d', Some [Some (Sample.RegexDetector "from 'angular'")]).
Proof.
  intros d net.
  destruct (@ProvideDetectors_after_updateDetectors
              Sample.compiler Sample.service Sample.transport net d
              [Sample.p_regex; Sample.p_future]
              (Some [Some (Sample.RegexDetector "from 'angular'")])
              (fst (Sample.ms_Set (Sample.emptyStore 5)
                      [Sample.p_regex; Sample.p_future]))
              eq_refl eq_refl eq_refl eq_refl)
    as (d' & Hu & Hp & _).
  now exists d'.
Defined.

Lemma setDetectorsFromCache_outcomes_witness :
  let d := Sample.provider (Sample.storeUpdatedAt 3 5) in
  exists d' r,
    @setDetectorsFromCache Sample.compiler Sample.service Sample.transport d
    = Some (d', r) /\ store d' = store d /\ mux d' = freshMutex.
Proof.
  intros d.
  destruct (@setDetectorsFromCache_outcomes
              Sample.compiler Sample.service Sample.transport d eq_refl)
    as (d' & r & Hs & Hm & Hst & _).
  now exists d', r.
Defined.

Lemma restore_after_refresh_witness :
  let d := Sample.provider (Sample.emptyStore 5) in
  let net := Sample.serving [Sample.p_regex; Sample.p_future] in
  exists d',
    @updateDetectors Sample.compiler Sample.service Sample.transport net d
    = Some (d', None) /\
    detectors (@ProvideDynamic Sample.compiler Sample.service Sample.transport
                 "https://grafana.com" (store d') true)
    = detectors d'.
Proof.
  intros d net.
  apply (@restore_after_refresh
           Sample.compiler Sample.service Sample.transport net d
           "https://grafana.com" [Sample.p_regex; Sample.p_future]
           (Some [Some (Sample.RegexDetector "from 'angular'")])
           (fst (Sample.ms_Set (Sample.emptyStore 5)
                   [Sample.p_regex; Sample.p_future]))
           (Sample.encode [Sample.p_regex; Sample.p_future]));
    reflexivity.
Defined.

Lemma calls_wait_for_the_lock_holder_witness :
  let d := Sample.provider (Sample.emptyStore 5) in
  @setDetectorsFromCache Sample.compiler Sample.service Sample.transport
    (set_mux (mkRWMutex true O) d) = None.
Proof.
  intros d.
  apply (@calls_wait_for_the_lock_holder
           Sample.compiler Sample.service Sample.transport
           Sample.unreachable d (mkRWMutex true O) eq_refl).
Defined.

(** ** The background service while the remote end is down *)

Section SchedulerMore.
Context `{Service} `{!Transport}.

Lemma updateDetectors_fetch_error (net : Network) (d : Dynamic) (e : error) :
  mux d = freshMutex ->
  fetch net d = inr e ->
  updateDetectors net d = Some (d, Some (fmt.Errorf_w "fetch: " e)).
Proof.
  intros Hm Hf. unfold updateDetectors. rewrite Hm, Lock_fresh.
  change (fetch net (set_mux (mkRWMutex true O) d)) with (fetch net d).
  rewrite Hf. now rewrite unlocked_after_Lock.
Qed.

(** X10.  Along any firings of the loop during which every fetch fails,
    on either kind of ticker channel, the loop is still running and the
    provider is exactly as it was: each firing counts as a cycle and logs
    one error of the form "fetch: ...".  Such firings exist in any
    number: one period apart, they are all received. *)
Theorem Run_loop_remote_down (chan : time.TimerChannel)
    (ctx : context_Context) (interval : time.Duration) :
  (forall (events : list event) (st st' : loop_state),
      mux (provider st) = freshMutex ->
      Forall (fun ev => match ev with
                        | Tick _ net _ =>
                            exists e, fetch net (provider st) = inr e
                        | Done _ => False
                        end) events ->
      Run_loop chan ctx interval st events = Running st' ->
      provider st' = provider st /\
      cycles st' = (cycles st + length events)%nat /\
      exists errs,
        logged st' = logged st ++ errs /\
        length errs = length events /\
        Forall (fun e => exists cause, e = wrapError "fetch: " cause) errs) /\
  (forall (nets : list Network) (st : loop_state) (t : time.Time)
          (tk : time.Ticker),
      0 < interval ->
      mux (provider st) = freshMutex ->
      clock st <= t -> receive_tick st t = Some tk ->
      exists st',
        Run_loop chan ctx interval st (regular_firings interval t nets)
        = Running st').
Proof.
  split.
  - induction events as [|ev events IH]; intros st st' Hm Hdown Hrun.
    + simpl in Hrun. injection Hrun as <-.
      split; [reflexivity|]. split; [simpl; lia|].
      exists []. rewrite app_nil_r. now repeat split.
    + inversion Hdown as [|? ? Hev Hrest]; subst.
      destruct ev as [t net finished|t]; [|destruct Hev].
      destruct Hev as [e Hf].
      destruct (Run_loop_Tick_inv chan ctx interval st t finished net events
                  Hm) as (tk & d & r & _ & _ & _ & Hu & _ & Hstep);
        [rewrite Hrun; discriminate|].
      rewrite (updateDetectors_fetch_error net (provider st) e Hm Hf) in Hu.
      injection Hu as <- <-.
      rewrite Hstep in Hrun.
      destruct (IH (mkLoop (provider st) finished false
                           (time.Reset chan finished interval tk)
                           (S (cycles st))
                           (log_Error (Some (fmt.Errorf_w "fetch: " e))
                                      (logged st)))
                   st' Hm Hrest Hrun)
        as (Hp & Hc & errs & Hl & Hlen & Hall).
      split; [exact Hp|]. split; [rewrite Hc; simpl; lia|].
      exists (fmt.Errorf_w "fetch: " e :: errs).
      split; [rewrite Hl; simpl; now rewrite <- app_assoc|].
      split; [simpl; now rewrite Hlen|].
      constructor; [now exists e | exact Hall].
  - intros nets st t tk Hi Hm Hclk Hrecv.
    destruct (Run_loop_regular chan ctx interval nets Hi st t tk Hm Hclk Hrecv)
      as (st' & Hrun & _).
    now exists st'.
Qed.

End SchedulerMore.

Lemma Run_loop_remote_down_witness :
  let d := Sample.provider (Sample.storeUpdatedAt 0 0) in
  let st := @mkLoop Sample.compiler Sample.service d 0 false
              (time.mkTicker 10 10 false) O [] in
  let events := [Tick 10 Sample.unreachable 30;
                 Tick 30 Sample.unreachable 31] in
  exists st',
    @Run_loop Sample.compiler Sample.service Sample.transport time.Buffered
      (mkContext None) time.Hour st events = Running st' /\
    provider st' = d /\ cycles st' = 2%nat.
Proof.
  intros d st events.
  assert (Hex : exists st',
             @Run_loop Sample.compiler Sample.service Sample.transport
               time.Buffered (mkContext None) time.Hour st events
             = Running st') by (eexists; reflexivity).
  destruct Hex as [st' Hrun]. exists st'. split; [exact Hrun|].
  destruct (@Run_loop_remote_down
              Sample.compiler Sample.service Sample.transport time.Buffered
              (mkContext None) time.Hour) as [Hdown _].
  destruct (Hdown events st st' eq_refl) as (Hp & Hc & _).
  - repeat constructor; eexists; reflexivity.
  - exact Hrun.
  - split; [exact Hp | exact Hc].
Defined.

(** ** Authors *)

Section AuthorFacts.
Import commit_helper.

(** X11.  [firstRealStringX] returns the first of its arguments that is not the
    empty string, and "?" when there is none. *)
Theorem firstRealStringX_first_nonempty (vals : list string) :
  (exists pre v post,
      vals = pre ++ v :: post /\ Forall (fun s => s = EmptyString) pre /\
      v <> EmptyString /\ firstRealStringX vals = v) \/
  (Forall (fun s => s = EmptyString) vals /\
   firstRealStringX vals = "?"%string).
Proof.
  induction vals as [|v vals IH]; [right; split; [constructor|reflexivity]|].
  simpl. destruct (String.eqb_spec v "") as [->|Hne].
  - destruct IH as [(pre & x & post & -> & Hpre & Hx & Hr)|[Hall Hr]].
    + left. exists (EmptyString :: pre), x, post.
      repeat split; auto.
    + right. split; [now constructor | exact Hr].
  - left. exists [], v, vals. repeat split; auto.
Qed.

Lemma firstRealStringX_nonempty (vals : list string) :
  firstRealStringX vals <> EmptyString.
Proof.
  induction vals as [|v vals IH]; simpl; [discriminate|].
  now destruct (String.eqb_spec v "").
Qed.

(** X12.  The author made from a user never has an empty name or an empty
    e-mail: the name is the user's name, else the login, else the e-mail;
    the e-mail is the user's e-mail, else the login, else the name; "?"
    stands in when all three are empty.  Its time is the zero time. *)
Theorem getAuthor_never_empty (u : userInfo) :
  sig_Name (getAuthor u) <> EmptyString /\
  sig_Email (getAuthor u) <> EmptyString /\
  (Name u <> EmptyString -> sig_Name (getAuthor u) = Name u) /\
  (Email u <> EmptyString -> sig_Email (getAuthor u) = Email u) /\
  (Name u = EmptyString -> Login u <> EmptyString ->
   sig_Name (getAuthor u) = Login u) /\
  (Email u = EmptyString -> Login u <> EmptyString ->
   sig_Email (getAuthor u) = Login u) /\
  (Name u = EmptyString -> Login u = EmptyString -> Email u <> EmptyString ->
   sig_Name (getAuthor u) = Email u) /\
  (Email u = EmptyString -> Login u = EmptyString -> Name u <> EmptyString ->
   sig_Email (getAuthor u) = Name u) /\
  (Name u = EmptyString -> Login u = EmptyString -> Email u = EmptyString ->
   sig_Name (getAuthor u) = "?"%string /\
   sig_Email (getAuthor u) = "?"%string) /\
  sig_When (getAuthor u) = time.zeroTime.
Proof.
  unfold getAuthor. cbn [sig_Name sig_Email sig_When].
  split; [apply firstRealStringX_nonempty|].
  split; [apply firstRealStringX_nonempty|].
  simpl.
  destruct (String.eqb_spec (Name u) ""), (String.eqb_spec (Email u) ""),
    (String.eqb_spec (Login u) ""); repeat split; intros; congruence.
Qed.

Lemma getAuthor_nonempty (u : userInfo) :
  sig_Name (getAuthor u) <> EmptyString /\
  sig_Email (getAuthor u) <> EmptyString.
Proof. split; apply firstRealStringX_nonempty. Qed.

Lemma find_app_last {A} (p : A -> bool) (l : list A) (x : A) :
  find p (l ++ [x])
  = match find p l with
    | Some y => Some y
    | None => if p x then Some x else None
    end.
Proof.
  induction l as [|a l IH]; simpl; [reflexivity|].
  destruct (p a); [reflexivity | exact IH].
Qed.

Lemma lookup_of_fold (rows : list userInfo) :
  forall (m : gmap Z userInfo) (id : Z),
    fold_left (fun lookup row => <[ID row := row]> lookup) rows m !! id
    = match find (fun row => ID row =? id) (rev rows) with
      | Some row => Some row
      | None => m !! id
      end.
Proof.
  induction rows as [|r rows IH]; intros m id; [reflexivity|].
  simpl. rewrite IH, find_app_last.
  destruct (find _ (rev rows)); [reflexivity|].
  destruct (Z.eqb_spec (ID r) id) as [->|Hne].
  - now rewrite lookup_insert_eq.
  - now rewrite lookup_insert_ne.
Qed.

(** X13.  [initOrg]: when the session fails, the helper is as before and the
    error is returned.  Otherwise the error is nil, the helper is of the
    org asked for, its directories are untouched, and an identifier looks
    up the last of the rows that bears it: nothing, when no row does. *)
Theorem initOrg_lookup (sql : Z -> list userInfo + error) (org : Z)
    (ch : commitHelper) :
  (forall e, sql org = inr e -> initOrg sql org ch = (ch, Some e)) /\
  (forall rows,
      sql org = inl rows ->
      snd (initOrg sql org ch) = None /\
      orgID (fst (initOrg sql org ch)) = org /\
      orgDir (fst (initOrg sql org ch)) = orgDir ch /\
      workDir (fst (initOrg sql org ch)) = workDir ch /\
      forall id,
        users (fst (initOrg sql org ch)) !! id
        = find (fun row => ID row =? id) (rev rows)).
Proof.
  unfold initOrg. split.
  - now intros e ->.
  - intros rows ->. simpl. repeat split.
    intros id. unfold lookup_of. rewrite lookup_of_fold.
    now destruct (find _ (rev rows)).
Qed.

End AuthorFacts.

Lemma initOrg_lookup_witness :
  commit_helper.users
    (fst (commit_helper.initOrg Sample.users_table 1 Sample.helper)) !! 7
  = Some Sample.ada_again /\
  commit_helper.initOrg Sample.users_table 2 Sample.helper
  = (Sample.helper, Some Sample.dbDown).
Proof.
  destruct (initOrg_lookup Sample.users_table 1 Sample.helper) as [_ Hok].
  destruct (Hok [Sample.ada; Sample.bob; Sample.ada_again] eq_refl)
    as (_ & _ & _ & _ & Hfind).
  split; [rewrite Hfind; reflexivity|].
  now apply (initOrg_lookup Sample.users_table 2 Sample.helper).
Defined.

(** ** [add], path by path *)

Section AddMore.
Import commit_helper.
Context `{Worktree}.

(** Once the loop is through, [add] makes the commit and returns what the
    commit returns. *)
Lemma add_commits_after_loop (ch : commitHelper) (opts : commitOptions)
    (w : World) (fx : effects) (u : unit) :
  add_loop ch (opts_body opts) (w, []) = (fx, inl u) ->
  exists sig,
    add ch opts w
    = ((fst (perform (fst fx) (WorkCommit (comment opts) sig)),
        snd fx ++ [WorkCommit (comment opts) sig]),
       Returns (snd (perform (fst fx) (WorkCommit (comment opts) sig)))) /\
    sig_When sig
    = (if 10 <? time.Unix (when opts) then when opts else time.zeroTime) /\
    match users ch !! userID opts with
    | Some user =>
        sig_Name sig = sig_Name (getAuthor user) /\
        sig_Email sig = sig_Email (getAuthor user)
    | None =>
        sig_Name sig = "admin"%string /\
        sig_Email sig = "admin@unknown.org"%string
    end.
Proof.
  intros Hloop. unfold add. rewrite Hloop.
  match goal with
  | |- context [do_call fx (WorkCommit _ ?s)] => exists s
  end.
  split.
  - unfold do_call. destruct (perform (fst fx) _) as [w' err]. reflexivity.
  - split.
    + destruct (10 <? time.Unix (when opts)); reflexivity.
    + destruct (users ch !! userID opts) as [user|];
        destruct (10 <? time.Unix (when opts)); split; reflexivity.
Qed.

(** X14.  A nil return of [add] means that every entry was within the root and
    staged -- directory made, file written, path added, in the order of
    the body -- and that one commit, with the comment asked for, was the
    last call. *)
Theorem add_nil_means_staged_and_committed (ch : commitHelper)
    (opts : commitOptions) (w : World) (fx : effects) :
  add ch opts w = (fx, Returns None) ->
  forallb (within_root ch) (opts_body opts) = true /\
  exists sig,
    snd fx
    = flat_map (staging ch) (opts_body opts)
      ++ [WorkCommit (comment opts) sig].
Proof.
  intros Hadd.
  destruct (add_loop ch (opts_body opts) (w, [])) as [fx0 [u|r]] eqn:Hloop.
  - destruct (add_commits_after_loop ch opts w fx0 u Hloop)
      as (sig & Heq & _).
    rewrite Heq in Hadd. injection Hadd as <- _.
    destruct (add_loop_continues ch _ _ _ _ Hloop) as [Hall Hlog].
    split; [exact Hall|]. exists sig. simpl. now rewrite Hlog.
  - unfold add in Hadd. rewrite Hloop in Hadd. injection Hadd as _ ->.
    destruct (add_loop_no_commit ch _ _ _ _ Hloop eq_refl) as [_ Hne].
    now destruct Hne.
Qed.

Lemma add_loop_obliging (ch : commitHelper) (entries : list commitBody) :
  (forall w c, snd (perform w c) = None) ->
  forallb (within_root ch) entries = true ->
  Forall (fun b => (String.length (workDir ch) < String.length (fpath b))%nat)
         entries ->
  forall fx, exists fx', add_loop ch entries fx = (fx', inl tt).
Proof.
  intros Hok Hin Hlen. induction entries as [|b entries IH]; intros fx.
  - now exists fx.
  - simpl in Hin. apply andb_prop in Hin as [Hb Hin].
    inversion Hlen as [|? ? Hlb Hlrest]; subst.
    simpl. unfold add_entry. unfold within_root in Hb. rewrite Hb. simpl.
    unfold do_call at 1.
    destruct (perform (fst fx) _) as [w1 e1] eqn:E1.
    pose proof (Hok (fst fx) (MkdirAll (path_Dir (fpath b)))) as H1.
    rewrite E1 in H1. simpl in H1. subst e1.
    unfold do_call at 1. cbn [fst snd].
    destruct (perform w1 _) as [w2 e2] eqn:E2.
    pose proof (Hok w1 (WriteFile (fpath b) (body b))) as H2.
    rewrite E2 in H2. simpl in H2. subst e2.
    unfold slice_from.
    destruct (Nat.ltb_spec (String.length (fpath b))
                (String.length (workDir ch) + 1)); [lia|].
    unfold do_call at 1. cbn [fst snd].
    destruct (perform w2 _) as [w3 e3] eqn:E3.
    match type of E3 with perform _ ?c = _ =>
      pose proof (Hok w2 c) as H3 end.
    rewrite E3 in H3. simpl in H3. subst e3.
    apply (IH Hin Hlrest).
Qed.

(** X15.  In a world that accepts every call, with every entry within the root
    and every path longer than [workDir], [add] returns nil: each entry
    is staged in turn and one commit closes the calls.  With an empty
    body the commit is the only call. *)
Theorem add_succeeds_in_obliging_world (ch : commitHelper)
    (opts : commitOptions) (w : World) :
  (forall w c, snd (perform w c) = None) ->
  forallb (within_root ch) (opts_body opts) = true ->
  Forall (fun b => (String.length (workDir ch) < String.length (fpath b))%nat)
         (opts_body opts) ->
  snd (add ch opts w) = Returns None /\
  exists sig,
    snd (fst (add ch opts w))
    = flat_map (staging ch) (opts_body opts)
      ++ [WorkCommit (comment opts) sig] /\
    (opts_body opts = [] ->
     snd (fst (add ch opts w)) = [WorkCommit (comment opts) sig]).
Proof.
  intros Hok Hin Hlen.
  destruct (add_loop_obliging ch _ Hok Hin Hlen (w, [])) as [fx Hloop].
  destruct (add_commits_after_loop ch opts w fx tt Hloop) as (sig & Heq & _).
  destruct (add_loop_continues ch _ _ _ _ Hloop) as [_ Hlog].
  rewrite Heq. simpl. split; [now rewrite Hok|].
  exists sig. rewrite Hlog. split; [reflexivity|].
  now intros ->.
Qed.

Lemma commit_in_log (ch : commitHelper) (opts : commitOptions)
    (w : World) (msg : string) (sig : Signature) :
  In (WorkCommit msg sig) (snd (fst (add ch opts w))) ->
  msg = comment opts /\
  sig_Name sig <> EmptyString /\ sig_Email sig <> EmptyString /\
  sig_When sig
  = (if 10 <? time.Unix (when opts) then when opts else time.zeroTime) /\
  match users ch !! userID opts with
  | Some user =>
      sig_Name sig = sig_Name (getAuthor user) /\
      sig_Email sig = sig_Email (getAuthor user)
  | None =>
      sig_Name sig = "admin"%string /\
      sig_Email sig = "admin@unknown.org"%string
  end /\
  exists calls,
    snd (fst (add ch opts w)) = calls ++ [WorkCommit msg sig] /\
    no_commit calls = true.
Proof.
  intros Hin.
  destruct (add_loop ch (opts_body opts) (w, [])) as [fx0 [u|r]] eqn:Hloop.
  - destruct (add_commits_after_loop ch opts w fx0 u Hloop)
      as (sig' & Heq & Hwhen & Huser).
    destruct (add_loop_no_commit ch _ _ _ _ Hloop eq_refl) as [Hnc _].
    rewrite Heq in Hin |- *. cbn [fst snd] in Hin |- *.
    apply in_app_iff in Hin as [Hin|[Hin|[]]].
    + unfold no_commit in Hnc. rewrite forallb_forall in Hnc.
      specialize (Hnc _ Hin). discriminate Hnc.
    + injection Hin as <- <-.
      split; [reflexivity|].
      assert (Hne : sig_Name sig' <> EmptyString /\
                    sig_Email sig' <> EmptyString).
      { destruct (users ch !! userID opts) as [user|].
        - destruct Huser as [-> ->]. apply (getAuthor_nonempty user).
        - destruct Huser as [-> ->]. split; discriminate. }
      destruct Hne as [Hn He].
      split; [exact Hn|]. split; [exact He|]. split; [exact Hwhen|].
      split; [exact Huser|].
      exists (snd fx0). split; [reflexivity | exact Hnc].
  - unfold add in Hin. rewrite Hloop in Hin. cbn [fst snd] in Hin.
    destruct (add_loop_no_commit ch _ _ _ _ Hloop eq_refl) as [Hnc _].
    unfold no_commit in Hnc. rewrite forallb_forall in Hnc.
    specialize (Hnc _ Hin). discriminate Hnc.
Qed.

(** X16.  The commit that [add] makes carries the comment asked for; its author
    is the one made from the user found under [userID], or "admin" with
    "admin@unknown.org" when there is none, and never has an empty name or
    e-mail; its time is [opts.when] when that is more than ten seconds
    after the epoch, else the zero time.  The commit is the last call. *)
Theorem add_commit_author (ch : commitHelper) (opts : commitOptions)
    (w : World) (msg : string) (sig : Signature) :
  In (WorkCommit msg sig) (snd (fst (add ch opts w))) ->
  msg = comment opts /\
  sig_Name sig <> EmptyString /\ sig_Email sig <> EmptyString /\
  sig_When sig
  = (if 10 <? time.Unix (when opts) then when opts else time.zeroTime) /\
  match users ch !! userID opts with
  | Some user =>
      sig_Name sig = sig_Name (getAuthor user) /\
      sig_Email sig = sig_Email (getAuthor user)
  | None =>
      sig_Name sig = "admin"%string /\
      sig_Email sig = "admin@unknown.org"%string
  end /\
  exists calls,
    snd (fst (add ch opts w)) = calls ++ [WorkCommit msg sig] /\
    no_commit calls = true.
Proof. apply commit_in_log. Qed.

Lemma add_entry_panics (ch : commitHelper) (b : commitBody)
    (fx fx' : effects) :
  add_entry ch b fx = (fx', inr Panics) ->
  within_root ch b = true /\
  (String.length (fpath b) <= String.length (workDir ch))%nat /\
  snd fx'
  = snd fx ++ [MkdirAll (path_Dir (fpath b)); WriteFile (fpath b) (body b)].
Proof.
  unfold add_entry, within_root.
  destruct (String.prefix _ _); simpl; [|discriminate].
  destruct (do_call fx _) as [fx1 [e|]] eqn:E1; [discriminate|].
  destruct (do_call fx1 _) as [fx2 [e|]] eqn:E2; [discriminate|].
  unfold slice_from.
  destruct (Nat.ltb_spec (String.length (fpath b))
              (String.length (workDir ch) + 1)) as [Hlt|Hge].
  - intros [= <-]. split; [reflexivity|]. split; [lia|].
    rewrite (do_call_log _ _ _ _ E2), (do_call_log _ _ _ _ E1).
    now rewrite <- app_assoc.
  - destruct (do_call fx2 _) as [fx3 [e|]] eqn:E3; [|discriminate].
    destruct (do_call fx3 _) as [fx4 [e2|]]; discriminate.
Qed.

(** X17.  [add] panics only at an entry that is within the root and whose path
    is no longer than [workDir], so that slicing off [workDir] and the
    separator is out of range; by then the entry's file has been written.
    No commit is made. *)
Theorem add_panics_after_writing (ch : commitHelper) (opts : commitOptions)
    (w : World) :
  snd (add ch opts w) = Panics ->
  exists pre b post,
    opts_body opts = pre ++ b :: post /\
    within_root ch b = true /\
    (String.length (fpath b) <= String.length (workDir ch))%nat /\
    In (WriteFile (fpath b) (body b)) (snd (fst (add ch opts w))) /\
    no_commit (snd (fst (add ch opts w))) = true.
Proof.
  unfold add.
  destruct (add_loop ch (opts_body opts) (w, [])) as [fx0 [u|r]] eqn:Hloop.
  { destruct (do_call fx0 _) as [fx1 e]. discriminate. }
  cbn [fst snd]. intros ->.
  destruct (add_loop_no_commit ch _ _ _ _ Hloop eq_refl) as [Hnc _].
  revert Hloop. generalize (w, [] : list call) as fx.
  induction (opts_body opts) as [|b entries IH]; intros fx Hloop;
    [discriminate Hloop|].
  simpl in Hloop.
  destruct (add_entry ch b fx) as [fx1 [u|r]] eqn:E.
  - destruct (IH fx1 Hloop) as (pre & b' & post & -> & Hb & Hl & Hw & _).
    exists (b :: pre), b', post. now repeat split.
  - injection Hloop as Hfx Hr. subst fx1 r.
    destruct (add_entry_panics ch b fx fx0 E) as (Hb & Hl & Hlog).
    exists [], b, entries. repeat split; try assumption.
    rewrite Hlog, in_app_iff. right. right. now left.
Qed.

(** X18.  A directory that cannot be made or a file that cannot be written
    ends [add] at that entry: the error of the failing call is returned as
    it is, nothing is added to the work tree for the entry, the entries
    after it are not looked at, and no commit is made. *)
Theorem add_returns_first_io_error (ch : commitHelper)
    (opts : commitOptions) (w : World) (pre post : list commitBody)
    (b : commitBody) (fx : effects) :
  opts_body opts = pre ++ b :: post ->
  add_loop ch pre (w, []) = (fx, inl tt) ->
  within_root ch b = true ->
  (forall w1 e,
      perform (fst fx) (MkdirAll (path_Dir (fpath b))) = (w1, Some e) ->
      add ch opts w
      = ((w1, snd fx ++ [MkdirAll (path_Dir (fpath b))]),
         Returns (Some e))) /\
  (forall w1 w2 e,
      perform (fst fx) (MkdirAll (path_Dir (fpath b))) = (w1, None) ->
      perform w1 (WriteFile (fpath b) (body b)) = (w2, Some e) ->
      add ch opts w
      = ((w2, snd fx ++ [MkdirAll (path_Dir (fpath b));
                         WriteFile (fpath b) (body b)]),
         Returns (Some e))).
Proof.
  intros Hbody Hpre Hb. unfold add. rewrite Hbody, add_loop_app, Hpre.
  simpl. unfold add_entry. unfold within_root in Hb. rewrite Hb. simpl.
  split.
  - intros w1 e E1. unfold do_call. rewrite E1. reflexivity.
  - intros w1 w2 e E1 E2. unfold do_call. rewrite E1. cbn [fst snd].
    rewrite E2. now rewrite <- app_assoc.
Qed.

(** X19.  When [work.Add] fails for an entry, [add] asks the work tree for its
    status and returns a new error that names the path added: with the
    size of the body when the status was read, with the status error when
    it was not.  The error of [work.Add] itself is in neither; the
    entry's file stays written and no commit is made. *)
Theorem add_reports_failed_staging (ch : commitHelper)
    (opts : commitOptions) (w : World) (pre post : list commitBody)
    (b : commitBody) (fx : effects) (sub : string)
    (w1 w2 w3 w4 : World) (e : error) (e2 : option error) :
  opts_body opts = pre ++ b :: post ->
  add_loop ch pre (w, []) = (fx, inl tt) ->
  within_root ch b = true ->
  perform (fst fx) (MkdirAll (path_Dir (fpath b))) = (w1, None) ->
  perform w1 (WriteFile (fpath b) (body b)) = (w2, None) ->
  slice_from (fpath b) (String.length (workDir ch) + 1) = Some sub ->
  perform w2 (WorkAdd sub) = (w3, Some e) ->
  perform w3 WorkStatus = (w4, e2) ->
  add ch opts w
  = ((w4, snd fx ++ [MkdirAll (path_Dir (fpath b));
                     WriteFile (fpath b) (body b); WorkAdd sub; WorkStatus]),
     Returns (Some (errorString
       match e2 with
       | Some e2 =>
           ("error adding: " ++ sub ++ " (invalud work status: " ++
            errors.Error e2 ++ ")")%string
       | None =>
           ("unable to add file: " ++ sub ++ " (" ++
            decimal (length (body b)) ++ ")")%string
       end))).
Proof.
  intros Hbody Hpre Hb E1 E2 Hsub E3 E4.
  unfold add. rewrite Hbody, add_loop_app, Hpre.
  simpl. unfold add_entry. unfold within_root in Hb. rewrite Hb. simpl.
  unfold do_call. rewrite E1. cbn [fst snd]. rewrite E2. cbn [fst snd].
  rewrite Hsub, E3. cbn [fst snd]. rewrite E4.
  destruct e2; cbn [fst snd]; now rewrite <- !app_assoc.
Qed.

(** X20.  After [initOrg] has read the users of the org, the commit that [add]
    makes for a user is signed as the last row read under that user's
    identifier. *)
Theorem add_signs_as_user_from_initOrg (sql : Z -> list userInfo + error)
    (org : Z) (ch : commitHelper) (opts : commitOptions) (w : World)
    (rows : list userInfo) (user : userInfo) (msg : string)
    (sig : Signature) :
  sql org = inl rows ->
  find (fun row => ID row =? userID opts) (rev rows) = Some user ->
  In (WorkCommit msg sig)
     (snd (fst (add (fst (initOrg sql org ch)) opts w))) ->
  sig_Name sig = sig_Name (getAuthor user) /\
  sig_Email sig = sig_Email (getAuthor user).
Proof.
  intros Hsql Hfind Hin.
  destruct (commit_in_log _ _ _ _ _ Hin) as (_ & _ & _ & _ & Huser & _).
  unfold initOrg in Huser. rewrite Hsql in Huser. simpl in Huser.
  unfold lookup_of in Huser. rewrite lookup_of_fold, Hfind in Huser.
  exact Huser.
Qed.

End AddMore.

Lemma add_nil_means_staged_and_committed_witness :
  let opts := commit_helper.mkCommitOptions [Sample.inside]
                (1700000000 * time.Second) 7 "export" in
  exists sig,
    snd (fst (@commit_helper.add Sample.worktree Sample.helper opts
                Sample.emptyDisk))
    = flat_map (@commit_helper.staging Sample.worktree Sample.helper)
               [Sample.inside]
      ++ [commit_helper.WorkCommit "export" sig].
Proof.
  intros opts.
  destruct (@add_nil_means_staged_and_committed Sample.worktree Sample.helper
              opts Sample.emptyDisk
              (fst (@commit_helper.add Sample.worktree Sample.helper opts
                      Sample.emptyDisk)) eq_refl)
    as (_ & sig & Hlog).
  now exists sig.
Defined.

Lemma add_succeeds_in_obliging_world_witness :
  let opts := commit_helper.mkCommitOptions [Sample.inside; Sample.inside]
                0 7 "export" in
  snd (@commit_helper.add Sample.obliging Sample.helper opts tt)
  = commit_helper.Returns None.
Proof.
  intros opts.
  apply (@add_succeeds_in_obliging_world Sample.obliging Sample.helper opts tt).
  - reflexivity.
  - reflexivity.
  - repeat constructor.
Defined.

Lemma add_commit_author_witness :
  let opts := commit_helper.mkCommitOptions [Sample.inside] 5 7 "export" in
  let sig := commit_helper.mkSignature "admin" "admin@unknown.org"
               time.zeroTime in
  In (commit_helper.WorkCommit "export" sig)
     (snd (fst (@commit_helper.add Sample.worktree Sample.helper opts
                  Sample.emptyDisk))) /\
  commit_helper.sig_When sig = time.zeroTime.
Proof.
  intros opts sig.
  assert (Hin : In (commit_helper.WorkCommit "export" sig)
                   (snd (fst (@commit_helper.add Sample.worktree Sample.helper
                                opts Sample.emptyDisk)))).
  { vm_compute. tauto. }
  split; [exact Hin|].
  destruct (@add_commit_author Sample.worktree Sample.helper opts
              Sample.emptyDisk "export" sig Hin) as (_ & _ & _ & Hwhen & _).
  exact Hwhen.
Defined.

Lemma add_panics_after_writing_witness :
  let opts := commit_helper.mkCommitOptions [Sample.root_itself] 0 7 "export" in
  snd (@commit_helper.add Sample.worktree Sample.single opts Sample.emptyDisk)
  = commit_helper.Panics /\
  commit_helper.no_commit
    (snd (fst (@commit_helper.add Sample.worktree Sample.single opts
                 Sample.emptyDisk))) = true.
Proof.
  intros opts. split; [reflexivity|].
  destruct (@add_panics_after_writing Sample.worktree Sample.single opts
              Sample.emptyDisk eq_refl)
    as (pre & b & post & _ & _ & _ & _ & Hnc).
  exact Hnc.
Defined.

Lemma add_returns_first_io_error_witness :
  let opts := commit_helper.mkCommitOptions [Sample.inside; Sample.outside]
                0 7 "export" in
  let w := Sample.mkDisk [] [] [] ["/repo/org_1/dash/a.json"%string] in
  @commit_helper.add Sample.worktree Sample.helper opts w
  = ((w, [commit_helper.MkdirAll "/repo/org_1/dash";
          commit_helper.WriteFile "/repo/org_1/dash/a.json" Sample.bytes_hi]),
     commit_helper.Returns (Some (errorString "permission denied"))).
Proof.
  intros opts w.
  destruct (@add_returns_first_io_error Sample.worktree Sample.helper opts w
              [] [Sample.outside] Sample.inside (w, [])
              eq_refl eq_refl eq_refl) as [_ Hwrite].
  apply (Hwrite w w (errorString "permission denied")); reflexivity.
Defined.

Lemma add_reports_failed_staging_witness :
  let opts := commit_helper.mkCommitOptions [Sample.inside] 0 7 "export" in
  snd (@commit_helper.add Sample.lockedIndex Sample.helper opts tt)
  = commit_helper.Returns
      (Some (errorString "unable to add file: org_1/dash/a.json (2)")).
Proof.
  intros opts.
  rewrite (@add_reports_failed_staging Sample.lockedIndex Sample.helper opts
             tt [] [] Sample.inside (tt, []) "org_1/dash/a.json"
             tt tt tt tt (errorString "index.lock: file exists") None
             eq_refl eq_refl eq_refl eq_refl eq_refl eq_refl eq_refl eq_refl).
  reflexivity.
Defined.

Lemma add_signs_as_user_from_initOrg_witness :
  let opts := commit_helper.mkCommitOptions [Sample.inside] 0 7 "export" in
  let ch := fst (commit_helper.initOrg Sample.users_table 1 Sample.helper) in
  let sig := commit_helper.mkSignature "Ada" "ada@example.com"
               time.zeroTime in
  In (commit_helper.WorkCommit "export" sig)
     (snd (fst (@commit_helper.add Sample.worktree ch opts Sample.emptyDisk))) /\
  commit_helper.sig_Name sig
  = commit_helper.sig_Name (commit_helper.getAuthor Sample.ada_again).
Proof.
  intros opts ch sig.
  assert (Hin : In (commit_helper.WorkCommit "export" sig)
                   (snd (fst (@commit_helper.add Sample.worktree ch opts
                                Sample.emptyDisk)))).
  { vm_compute. tauto. }
  split; [exact Hin|].
  apply (@add_signs_as_user_from_initOrg Sample.worktree Sample.users_table 1
           Sample.helper opts Sample.emptyDisk
           [Sample.ada; Sample.bob; Sample.ada_again] Sample.ada_again
           "export" sig eq_refl eq_refl Hin).
Defined.

(** ** Concurrent callers: progress, and agreement with single calls *)

Section InterleavingMore.
Context `{Service} `{!Transport}.

Lemma count_positive (p : thread -> bool) (l : list thread) :
  (1 <= count p l)%nat -> exists i x, l !! i = Some x /\ p x = true.
Proof.
  induction l as [|a l IH]; simpl; [lia|].
  destruct (p a) eqn:Ha.
  - intros _. now exists O, a.
  - intros Hc. destruct (IH Hc) as (i & x & Hi & Hx). now exists (S i), x.
Qed.

Lemma count_zero (p : thread -> bool) (l : list thread) :
  count p l = O -> forall i x, l !! i = Some x -> p x = false.
Proof.
  intros Hc i x Hi. destruct (p x) eqn:Hx; [|reflexivity].
  pose proof (count_one p l i x Hi Hx). lia.
Qed.

Lemma refreshing_advances (net : Network) (d : Dynamic) (th : thread) :
  refreshing th = true ->
  exists d' th', thread_step (Advance net) d th = Some (d', th').
Proof.
  destruct th as [|pc|pc]; try discriminate.
  destruct pc as [| |patterns|patterns nd|nd|ret]; try discriminate;
    intros _; simpl.
  - destruct (fetch net d); eexists _, _; reflexivity.
  - destruct (patternsToDetectors patterns) as [nd [err|]];
      eexists _, _; reflexivity.
  - destruct (store_Set (store d) patterns) as [s [err|]];
      eexists _, _; reflexivity.
  - eexists _, _; reflexivity.
  - eexists _, _; reflexivity.
Qed.

Lemma reading_advances (net : Network) (d : Dynamic) (th : thread) :
  reading th = true ->
  exists d' th', thread_step (Advance net) d th = Some (d', th').
Proof.
  destruct th as [|pc|pc]; try discriminate.
  destruct pc as [| |r]; try discriminate; intros _; simpl;
    eexists _, _; reflexivity.
Qed.

Lemma step_of_thread (c : system) (i : nat) (a : action) (th : thread)
    (d : Dynamic) (th' : thread) :
  threads c !! i = Some th ->
  thread_step a (shared c) th = Some (d, th') ->
  (th = InProvide AtRLock -> existsb stands_at_Lock (threads c) = false) ->
  exists ia c', cautious_step c ia = Some c'.
Proof.
  intros Hi Hs Hcautious. exists (i, a).
  assert (Hsys : exists c', system_step c (i, a) = Some c').
  { unfold system_step. simpl. rewrite Hi, Hs. eexists. reflexivity. }
  destruct Hsys as [c' Hsys]. exists c'.
  unfold cautious_step. simpl. rewrite Hi.
  destruct th as [|pc|pc]; try exact Hsys.
  destruct pc; try exact Hsys.
  now rewrite (Hcautious eq_refl).
Qed.

Lemma existsb_lookup (p : thread -> bool) (l : list thread) :
  existsb p l = true -> exists i th, l !! i = Some th /\ p th = true.
Proof.
  induction l as [|a l IH]; simpl; [discriminate|].
  destruct (p a) eqn:Ha; simpl.
  - intros _. now exists O, a.
  - intros Hl. destruct (IH Hl) as (i & th & Hi & Hth). now exists (S i), th.
Qed.

(** X21.  No deadlock, with a mutex that keeps new readers out while a
    writer waits: in every state the callers can reach, some goroutine
    can take a step, and can take it even if every goroutine standing at
    [Lock] counts as a waiting writer.  A call waiting for the lock waits
    only while another call, which can go on, holds it or stands before
    it. *)
Theorem some_goroutine_can_step (c : system) :
  reachable c -> threads c <> [] ->
  exists ia c',
    cautious_step c ia = Some c' /\ system_step c ia = Some c'.
Proof.
  intros Hreach Hne.
  assert (Hsys : forall ia c', cautious_step c ia = Some c' ->
                               system_step c ia = Some c').
  { intros ia c'. unfold cautious_step.
    destruct (threads c !! fst ia) as [[|pc|pc]|]; try (intros Hs; exact Hs).
    destruct pc; try (intros Hs; exact Hs).
    destruct (existsb stands_at_Lock (threads c)); [discriminate|].
    intros Hs; exact Hs. }
  assert (Hex : exists ia c', cautious_step c ia = Some c').
  2:{ destruct Hex as (ia & c' & Hstep). exists ia, c'.
      split; [exact Hstep | now apply Hsys]. }
  destruct (reachable_invariant c Hreach) as (Hw & Hr & Hwr).
  pose (net := (fun _ => inr (errorString "")) : Network).
  destruct (writer (mux (shared c))) eqn:W.
  - destruct (count_positive refreshing (threads c)) as (i & th & Hi & Hth);
      [lia|].
    destruct (refreshing_advances net (shared c) th Hth) as (d & th' & Hs).
    apply (step_of_thread c i _ th d th' Hi Hs).
    intros ->. discriminate Hth.
  - destruct (count reading (threads c)) as [|n] eqn:Hcr.
    + assert (Hfree : mux (shared c) = freshMutex).
      { destruct (mux (shared c)) as [wr rd]. simpl in *. now subst. }
      destruct (existsb stands_at_Lock (threads c)) eqn:Hstand.
      * destruct (existsb_lookup _ _ Hstand) as (j & th & Hj & Hth).
        destruct th as [|pc|pc]; try discriminate Hth.
        destruct pc; try discriminate Hth.
        apply (step_of_thread c j (Advance net) (InUpdate AtLock)
                 (set_mux (mkRWMutex true O) (shared c))
                 (InUpdate AtFetch) Hj).
        -- simpl. now rewrite Hfree.
        -- discriminate.
      * destruct (threads c) as [|th rest] eqn:Hths; [congruence|].
        assert (Hfirst : threads c !! O = Some th) by now rewrite Hths.
        rewrite <- Hths in Hw, Hstand.
        assert (Hrd : reading th = false).
        { apply (count_zero reading (th :: rest) Hcr O). reflexivity. }
        assert (Hrf : refreshing th = false).
        { apply (count_zero refreshing (threads c) Hw O). exact Hfirst. }
        destruct th as [|pc|pc].
        -- apply (step_of_thread c O CallUpdate Idle (shared c)
                    (InUpdate AtLock) Hfirst); [reflexivity|discriminate].
        -- destruct pc; try discriminate.
           apply (step_of_thread c O (Advance net) (InUpdate AtLock)
                    (set_mux (mkRWMutex true O) (shared c))
                    (InUpdate AtFetch) Hfirst); [|discriminate].
           simpl. now rewrite Hfree.
        -- destruct pc; try discriminate.
           apply (step_of_thread c O (Advance net) (InProvide AtRLock)
                    (set_mux (mkRWMutex false 1) (shared c))
                    (InProvide AtRead) Hfirst); [|intros _; exact Hstand].
           simpl. now rewrite Hfree.
    + destruct (count_positive reading (threads c)) as (i & th & Hi & Hth);
        [lia|].
      destruct (reading_advances net (shared c) th Hth) as (d & th' & Hs).
      apply (step_of_thread c i _ th d th' Hi Hs).
      intros ->. discriminate Hth.
Qed.

Lemma count_all_idle (p : thread -> bool) (l : list thread) :
  Forall (fun th => th = Idle) l -> p Idle = false -> count p l = O.
Proof.
  intros Hidle Hp. induction Hidle as [|th l -> _ IH]; simpl;
    [reflexivity|]. now rewrite Hp.
Qed.

(** X22.  The lock records exactly the calls in progress: it is write-locked
    if and only if some call of [updateDetectors] is past [Lock]; its
    reader count is the number of calls of [ProvideDetectors] between
    [RLock] and [RUnlock]; and with every goroutine idle it is free. *)
Theorem lock_records_calls_in_progress (c : system) :
  reachable c ->
  (writer (mux (shared c)) = true <->
   exists i th, threads c !! i = Some th /\ refreshing th = true) /\
  readers (mux (shared c)) = count reading (threads c) /\
  (Forall (fun th => th = Idle) (threads c) -> mux (shared c) = freshMutex).
Proof.
  intros Hreach.
  destruct (reachable_invariant c Hreach) as (Hw & Hr & Hwr).
  split; [|split].
  - split.
    + intros W. rewrite W in Hw. apply count_positive. lia.
    + intros (i & th & Hi & Hth).
      pose proof (count_one refreshing _ _ _ Hi Hth).
      destruct (writer (mux (shared c))); [reflexivity|lia].
  - now rewrite Hr.
  - intros Hidle.
    rewrite (count_all_idle refreshing _ Hidle eq_refl) in Hw.
    rewrite (count_all_idle reading _ Hidle eq_refl) in Hr.
    destruct (mux (shared c)) as [wr rd]. simpl in *.
    destruct wr; [discriminate|]. now subst.
Qed.

(** X23.  The two descriptions of [updateDetectors] agree: a goroutine that
    runs a call alone, statement after statement, reaches the deferred
    [Unlock] with the error that the call returns, and leaves the
    provider as the call leaves it. *)
Theorem updateDetectors_step_by_step (net : Network) (d d' : Dynamic)
    (r : option error) :
  updateDetectors net d = Some (d', r) ->
  exists k d'',
    run_schedule (mkSystem d [Idle])
      ((O, CallUpdate) :: replicate k (O, Advance net))
    = Some (mkSystem d'' [InUpdate (AtUnlock r)]) /\
    system_step (mkSystem d'' [InUpdate (AtUnlock r)]) (O, Advance net)
    = Some (mkSystem d' [Idle]).
Proof.
  unfold updateDetectors.
  destruct (Lock (mux d)) as [m|] eqn:HL; [|discriminate].
  destruct (fetch net (set_mux m d)) as [patterns|err] eqn:Hf.
  2:{ intros [= <- <-]. exists 2%nat. eexists.
      split; [|reflexivity].
      simpl. unfold system_step. simpl. rewrite HL. simpl.
      unfold system_step. simpl. rewrite Hf. reflexivity. }
  destruct (patternsToDetectors patterns) as [nd [err|]] eqn:Hc.
  { intros [= <- <-]. exists 3%nat. eexists.
    split; [|reflexivity].
    simpl. unfold system_step. simpl. rewrite HL. simpl.
    unfold system_step. simpl. rewrite Hf. simpl.
    unfold system_step. simpl. rewrite Hc. reflexivity. }
  destruct (store_Set (store (set_mux m d)) patterns) as [s [err|]] eqn:Hs.
  { intros [= <- <-]. exists 4%nat. eexists.
    split; [|reflexivity].
    simpl. unfold system_step. simpl. rewrite HL. simpl.
    unfold system_step. simpl. rewrite Hf. simpl.
    unfold system_step. simpl. rewrite Hc. simpl.
    unfold system_step. simpl. simpl in Hs. rewrite Hs. reflexivity. }
  intros [= <- <-]. exists 5%nat. eexists.
  split; [|reflexivity].
  simpl. unfold system_step. simpl. rewrite HL. simpl.
  unfold system_step. simpl. rewrite Hf. simpl.
  unfold system_step. simpl. rewrite Hc. simpl.
  unfold system_step. simpl. simpl in Hs. rewrite Hs. simpl.
  unfold system_step. simpl. reflexivity.
Qed.

(** X24.  Likewise for [ProvideDetectors]: run alone, a call reaches [RUnlock]
    holding the slice that it returns, and leaves the provider as the
    call leaves it. *)
Theorem ProvideDetectors_step_by_step (net : Network) (d d' : Dynamic)
    (r : slice AngularDetector) :
  ProvideDetectors d = Some (d', r) ->
  exists d'',
    run_schedule (mkSystem d [Idle])
      [(O, CallProvide); (O, Advance net); (O, Advance net)]
    = Some (mkSystem d'' [InProvide (AtRUnlock r)]) /\
    system_step (mkSystem d'' [InProvide (AtRUnlock r)]) (O, Advance net)
    = Some (mkSystem d' [Idle]).
Proof.
  unfold ProvideDetectors.
  destruct (RLock (mux d)) as [m|] eqn:HL; [|discriminate].
  intros [= <- <-]. eexists. split.
  - simpl. unfold system_step. simpl. rewrite HL. simpl.
    unfold system_step. simpl. reflexivity.
  - reflexivity.
Qed.

End InterleavingMore.

Lemma some_goroutine_can_step_witness :
  let d := Sample.provider (Sample.emptyStore 0) in
  let net := Sample.serving [Sample.p_contains] in
  let c : @system Sample.compiler Sample.service :=
    mkSystem (set_mux (mkRWMutex false 1) d)
             [@InProvide Sample.compiler AtRead; InUpdate AtLock;
              InProvide AtRLock] in
  @system_step Sample.compiler Sample.service Sample.transport c
    (1%nat, Advance net) = None /\
  @cautious_step Sample.compiler Sample.service Sample.transport c
    (2%nat, Advance net) = None /\
  exists ia c',
    @cautious_step Sample.compiler Sample.service Sample.transport c ia
    = Some c'.
Proof.
  intros d net c. split; [reflexivity|]. split; [reflexivity|].
  destruct (@some_goroutine_can_step
              Sample.compiler Sample.service Sample.transport c)
    as (ia & c' & Hstep & _).
  - exists d, 3%nat,
      [(0%nat, CallProvide); (1%nat, CallUpdate); (2%nat, CallProvide);
       (0%nat, Advance net)].
    reflexivity.
  - discriminate.
  - now exists ia, c'.
Defined.

Lemma lock_records_calls_in_progress_witness :
  let d := Sample.provider (Sample.emptyStore 0) in
  let net := Sample.serving [Sample.p_contains] in
  let c : @system Sample.compiler Sample.service :=
    mkSystem (set_mux (mkRWMutex false 2) d)
             [@InProvide Sample.compiler AtRead; InUpdate AtLock;
              InProvide AtRead] in
  readers (mux (shared c))
  = @count Sample.compiler (@reading Sample.compiler) (threads c).
Proof.
  intros d net c.
  apply (@lock_records_calls_in_progress
           Sample.compiler Sample.service Sample.transport c).
  exists d, 3%nat,
    [(0%nat, CallProvide); (2%nat, CallProvide); (1%nat, CallUpdate);
     (2%nat, Advance net); (0%nat, Advance net)].
  reflexivity.
Defined.

Lemma updateDetectors_step_by_step_witness :
  let d := Sample.provider (Sample.emptyStore 5) in
  let net := Sample.serving [Sample.p_regex; Sample.p_future] in
  exists k d' d'',
    @run_schedule Sample.compiler Sample.service Sample.transport
      (mkSystem d [Idle])
      ((O, CallUpdate) :: replicate k (O, Advance net))
    = Some (mkSystem d'' [InUpdate (AtUnlock None)]) /\
    @system_step Sample.compiler Sample.service Sample.transport
      (mkSystem d'' [InUpdate (AtUnlock None)]) (O, Advance net)
    = Some (mkSystem d' [Idle]) /\
    detectors d' = Some [Some (Sample.RegexDetector "from 'angular'")].
Proof.
  intros d net.
  destruct (@updateDetectors_step_by_step
              Sample.compiler Sample.service Sample.transport net d
              (@mkDynamic Sample.compiler Sample.service true
                 "https://grafana.com"
                 (fst (Sample.ms_Set (Sample.emptyStore 5)
                         [Sample.p_regex; Sample.p_future]))
                 (Some [Some (Sample.RegexDetector "from 'angular'")])
                 freshMutex)
              None eq_refl) as (k & d'' & Hrun & Hlast).
  eexists k, _, d''. split; [exact Hrun|]. split; [exact Hlast|reflexivity].
Defined.

Lemma ProvideDetectors_step_by_step_witness :
  let d := Sample.provider (Sample.emptyStore 5) in
  exists d'',
    @run_schedule Sample.compiler Sample.service Sample.transport
      (mkSystem d [Idle])
      [(O, CallProvide); (O, Advance Sample.unreachable);
       (O, Advance Sample.unreachable)]
    = Some (mkSystem d'' [InProvide (AtRUnlock None)]) /\
    @system_step Sample.compiler Sample.service Sample.transport
      (mkSystem d'' [InProvide (AtRUnlock None)])
      (O, Advance Sample.unreachable)
    = Some (mkSystem d [Idle]).
Proof.
  intros d.
  apply (@ProvideDetectors_step_by_step
           Sample.compiler Sample.service Sample.transport
           Sample.unreachable d d None eq_refl).
Defined.
